(** * Session-authentication lifecycle of ai-chatbot-svelte

    A shallow embedding of [src/lib/server/auth/index.ts] (token codec,
    [createSession], [validateSessionToken], the cookie binder), of
    [src/hooks.server.ts] ([handle]) and of the sign-in route
    [src/routes/(chat)/api/auth/signin/+server.ts], followed by the
    properties of the lifecycle.

    Conventions.  Instants are milliseconds since the epoch, in [Z], as
    [Date.now()] and [Date.getTime()] give them; the clock is read from
    the world and does not move while one request is served.  Bytes are [Z] in
    [0, 256).  A JS string is a [string] whose characters are the code
    points U+0000..U+00FF.  A [ResultAsync<T, E>] is a computation over the
    world that ends in [Ok] or [Err]; [safeTry] with [yield*] is the bind
    of that monad: the first [Err] ends the block and is its result. *)

From Stdlib Require Import ZArith Ascii String List Bool Lia.
From stdpp Require Import base option gmap strings list fin_maps.

Local Open Scope string_scope.
Local Open Scope list_scope.
Local Open Scope Z_scope.

(** ** Token codec *)

Module Codec.

(** *** 32-bit words (as the hash uses them) *)

Definition w32 (x : Z) : Z := x mod 2 ^ 32.
Definition add32 (a b : Z) : Z := w32 (a + b).
Definition not32 (x : Z) : Z := Z.lxor x 0xffffffff.
Definition rotr (n x : Z) : Z := Z.lor (Z.shiftr x n) (w32 (Z.shiftl x (32 - n))).

Definition Ch (x y z : Z) : Z := Z.lxor (Z.land x y) (Z.land (not32 x) z).
Definition Maj (x y z : Z) : Z :=
  Z.lxor (Z.lxor (Z.land x y) (Z.land x z)) (Z.land y z).
Definition bigSigma0 (x : Z) : Z := Z.lxor (Z.lxor (rotr 2 x) (rotr 13 x)) (rotr 22 x).
Definition bigSigma1 (x : Z) : Z := Z.lxor (Z.lxor (rotr 6 x) (rotr 11 x)) (rotr 25 x).
Definition smallSigma0 (x : Z) : Z := Z.lxor (Z.lxor (rotr 7 x) (rotr 18 x)) (Z.shiftr x 3).
Definition smallSigma1 (x : Z) : Z := Z.lxor (Z.lxor (rotr 17 x) (rotr 19 x)) (Z.shiftr x 10).

(** The round constants and the initial chaining value are defined as
    FIPS 180-4 defines them: the first 32 bits of the fractional parts of
    the cube roots of the first 64 primes, and of the square roots of the
    first 8. *)
Definition is_prime (n : Z) : bool :=
  (1 <? n) && forallb (fun d => negb (n mod d =? 0))
                      (map Z.of_nat (seq 2 (Z.to_nat n - 2))).

Definition first_primes : list Z :=
  List.filter is_prime (map Z.of_nat (seq 2 310)).

(** Integer cube root, bit by bit from bit [k - 1] down. *)
Fixpoint icbrt_bits (k : nat) (n r : Z) : Z :=
  match k with
  | O => r
  | S k' =>
      let c := r + 2 ^ Z.of_nat k' in
      icbrt_bits k' n (if c * c * c <=? n then c else r)
  end.

Definition icbrt (n : Z) : Z := icbrt_bits 48 n 0.

Definition K256 : list Z :=
  Eval vm_compute in map (fun p => w32 (icbrt (p * 2 ^ 96))) first_primes.

(** The eight working variables a..h, also the chaining value H0..H7. *)
Record HashState := mkHash {
  hA : Z; hB : Z; hC : Z; hD : Z; hE : Z; hF : Z; hG : Z; hH : Z }.

Definition frac_sqrt (i : nat) : Z := w32 (Z.sqrt (nth i first_primes 0 * 2 ^ 64)).

Definition H256_init : HashState :=
  Eval vm_compute in
    mkHash (frac_sqrt 0) (frac_sqrt 1) (frac_sqrt 2) (frac_sqrt 3)
           (frac_sqrt 4) (frac_sqrt 5) (frac_sqrt 6) (frac_sqrt 7).

(** *** Padding and block parsing *)

(** Big-endian bytes of [x], [n] of them. *)
Fixpoint be_bytes (n : nat) (x : Z) : list Z :=
  match n with
  | O => []
  | S k => Z.land (Z.shiftr x (8 * Z.of_nat k)) 255 :: be_bytes k x
  end.

Fixpoint be_word (bs : list Z) (acc : Z) : Z :=
  match bs with
  | [] => acc
  | b :: r => be_word r (Z.lor (Z.shiftl acc 8) (Z.land b 255))
  end.

(** The message, the bit 1, zero bits up to 56 mod 64 bytes, and the
    length in bits on 8 bytes. *)
Definition pad (msg : list Z) : list Z :=
  let len := Z.of_nat (length msg) in
  let zeros := Z.to_nat ((55 - len) mod 64) in
  msg ++ [128] ++ repeat 0 zeros ++ be_bytes 8 (8 * len).

Fixpoint words_of (fuel : nat) (bs : list Z) : list Z :=
  match fuel, bs with
  | S k, b0 :: b1 :: b2 :: b3 :: r => be_word [b0; b1; b2; b3] 0 :: words_of k r
  | _, _ => []
  end.

Fixpoint blocks_of (fuel : nat) (ws : list Z) : list (list Z) :=
  match fuel with
  | O => []
  | S k =>
      match ws with
      | [] => []
      | _ => firstn 16 ws :: blocks_of k (skipn 16 ws)
      end
  end.

(** *** Message schedule and compression *)

Definition word_at (ws : list Z) (i : nat) : Z := nth i ws 0.

Fixpoint schedule (n : nat) (ws : list Z) : list Z :=
  match n with
  | O => ws
  | S k =>
      let t := length ws in
      let w := add32 (add32 (smallSigma1 (word_at ws (t - 2))) (word_at ws (t - 7)))
                     (add32 (smallSigma0 (word_at ws (t - 15))) (word_at ws (t - 16))) in
      schedule k (ws ++ [w])
  end.

Definition round (s : HashState) (kw : Z * Z) : HashState :=
  let '(k, w) := kw in
  let t1 := add32 (add32 (add32 (hH s) (bigSigma1 (hE s)))
                         (add32 (Ch (hE s) (hF s) (hG s)) k)) w in
  let t2 := add32 (bigSigma0 (hA s)) (Maj (hA s) (hB s) (hC s)) in
  mkHash (add32 t1 t2) (hA s) (hB s) (hC s) (add32 (hD s) t1) (hE s) (hF s) (hG s).

Definition compress (h : HashState) (block : list Z) : HashState :=
  let s := fold_left round (combine K256 (schedule 48 block)) h in
  mkHash (add32 (hA h) (hA s)) (add32 (hB h) (hB s)) (add32 (hC h) (hC s))
         (add32 (hD h) (hD s)) (add32 (hE h) (hE s)) (add32 (hF h) (hF s))
         (add32 (hG h) (hG s)) (add32 (hH h) (hH s)).

Definition digest_bytes (h : HashState) : list Z :=
  be_bytes 4 (hA h) ++ be_bytes 4 (hB h) ++ be_bytes 4 (hC h) ++ be_bytes 4 (hD h) ++
  be_bytes 4 (hE h) ++ be_bytes 4 (hF h) ++ be_bytes 4 (hG h) ++ be_bytes 4 (hH h).

(** [sha256] of @oslojs/crypto: the SHA-256 digest (FIPS 180-4), 32 bytes. *)
Definition sha256 (msg : list Z) : list Z :=
  let p := pad msg in
  let ws := words_of (length p) p in
  digest_bytes (fold_left compress (blocks_of (length ws) ws) H256_init).

(** *** Text encodings *)

(** [new TextEncoder().encode(s)]: UTF-8; one byte below U+0080, two bytes
    for U+0080..U+00FF. *)
Definition utf8_char (c : ascii) : list Z :=
  let n := Z.of_N (N_of_ascii c) in
  if n <? 128 then [n] else [Z.lor 192 (Z.shiftr n 6); Z.lor 128 (Z.land n 63)].

Fixpoint TextEncoder_encode (s : string) : list Z :=
  match s with
  | EmptyString => []
  | String c r => utf8_char c ++ TextEncoder_encode r
  end.

Definition alphabet_at (alphabet : string) (i : Z) : ascii :=
  match String.get (Z.to_nat i) alphabet with
  | Some c => c
  | None => "?"%char
  end.

Definition hex_alphabet : string := "0123456789abcdef".

(** [encodeHexLowerCase]: two digits per byte, high nibble first. *)
Fixpoint encodeHexLowerCase (bs : list Z) : string :=
  match bs with
  | [] => EmptyString
  | b :: r =>
      String (alphabet_at hex_alphabet (Z.land (Z.shiftr b 4) 15))
        (String (alphabet_at hex_alphabet (Z.land b 15)) (encodeHexLowerCase r))
  end.

Definition base32_alphabet : string := "abcdefghijklmnopqrstuvwxyz234567".

Definition byte_bits (b : Z) : list bool :=
  [ Z.testbit b 7; Z.testbit b 6; Z.testbit b 5; Z.testbit b 4;
    Z.testbit b 3; Z.testbit b 2; Z.testbit b 1; Z.testbit b 0 ].

Definition quintet (b4 b3 b2 b1 b0 : bool) : Z :=
  16 * Z.b2z b4 + 8 * Z.b2z b3 + 4 * Z.b2z b2 + 2 * Z.b2z b1 + Z.b2z b0.

(** Five bits per character, most significant first; the last group is
    filled with zero bits and no '=' is appended. *)
Fixpoint base32_chars (bits : list bool) : string :=
  match bits with
  | [] => EmptyString
  | b4 :: b3 :: b2 :: b1 :: b0 :: r =>
      String (alphabet_at base32_alphabet (quintet b4 b3 b2 b1 b0)) (base32_chars r)
  | [b4; b3; b2; b1] =>
      String (alphabet_at base32_alphabet (quintet b4 b3 b2 b1 false)) EmptyString
  | [b4; b3; b2] =>
      String (alphabet_at base32_alphabet (quintet b4 b3 b2 false false)) EmptyString
  | [b4; b3] =>
      String (alphabet_at base32_alphabet (quintet b4 b3 false false false)) EmptyString
  | [b4] =>
      String (alphabet_at base32_alphabet (quintet b4 false false false false)) EmptyString
  end.

Definition encodeBase32LowerCaseNoPadding (bs : list Z) : string :=
  base32_chars (flat_map byte_bits bs).

(** The lookup identifier of a token, as [createSession] and
    [validateSessionToken] both compute it:
    [encodeHexLowerCase(sha256(new TextEncoder().encode(token)))]. *)
Definition sessionIdOf (token : string) : string :=
  encodeHexLowerCase (sha256 (TextEncoder_encode token)).

End Codec.

Arguments Codec.sha256 : simpl never.
Arguments Codec.sessionIdOf : simpl never.
Arguments Codec.encodeBase32LowerCaseNoPadding : simpl never.

(** ** The world a request runs in *)

(** Row of the Session table ([id] is the primary key). *)
Record Session := mkSession {
  session_id : string;
  userId : string;
  expiresAt : Z }.

(** Row of the User table, as the credential lookup returns it. *)
Record AuthUser := mkAuthUser {
  auth_id : string;
  auth_email : string;
  auth_password : string }.

(** The identity attached to a request: the public attributes. *)
Record User := mkUser {
  user_id : string;
  email : string }.

Definition public (u : AuthUser) : User := mkUser (auth_id u) (auth_email u).

Inductive DbError := StoreUnavailable | NotFound.

Inductive Result (T E : Type) :=
  | Ok (value : T)
  | Err (error : E).
Arguments Ok {T E} value.
Arguments Err {T E} error.

(** What reaches the persistence backend, in the order it is issued. *)
Inductive StoreOp :=
  | OpGet (lookupId : string)
  | OpPut (s : Session)
  | OpUpdateExpiry (lookupId : string) (newExpiresAt : Z)
  | OpDelete (lookupId : string)
  | OpGetUser (byEmail : string).

Record World := mkWorld {
  sessions : gmap string Session;   (* Session table, by primary key *)
  users : list AuthUser;            (* User table *)
  now : Z;                          (* what Date.now() reads *)
  outages : list bool;              (* per coming store call: is the backend down *)
  issued : list StoreOp;            (* store calls issued so far *)
  entropy : nat -> Z;               (* the bytes crypto.getRandomValues delivers *)
  drawn : nat }.                    (* how many of them were taken *)

Definition with_sessions (f : gmap string Session -> gmap string Session) (w : World) : World :=
  mkWorld (f (sessions w)) (users w) (now w) (outages w) (issued w) (entropy w) (drawn w).

Definition set_clock (t : Z) (w : World) : World :=
  mkWorld (sessions w) (users w) t (outages w) (issued w) (entropy w) (drawn w).

Definition set_outages (o : list bool) (w : World) : World :=
  mkWorld (sessions w) (users w) (now w) o (issued w) (entropy w) (drawn w).

(** The call [op] leaves the process: it is recorded and uses up one entry
    of the availability schedule. *)
Definition dispatch (op : StoreOp) (w : World) : World :=
  mkWorld (sessions w) (users w) (now w) (tail (outages w)) (issued w ++ [op])
          (entropy w) (drawn w).

Definition take_entropy (n : nat) (w : World) : World :=
  mkWorld (sessions w) (users w) (now w) (outages w) (issued w) (entropy w) (drawn w + n).

(** Is the backend down for the [k]-th coming store call (from 0); past the
    end of the schedule it is up. *)
Definition down_at (k : nat) (w : World) : bool := nth k (outages w) false.

Definition backend_down (w : World) : bool := down_at 0 w.

(** ** ResultAsync and safeTry *)

Definition ResultAsync (T : Type) : Type := World -> Result T DbError * World.

Definition ok {T} (v : T) : ResultAsync T := fun w => (Ok v, w).

(** [yield*] inside [safeTry]: go on with the value, or leave with the error. *)
Definition andThen {T U} (m : ResultAsync T) (k : T -> ResultAsync U) : ResultAsync U :=
  fun w =>
    match m w with
    | (Ok v, w1) => k v w1
    | (Err e, w1) => (Err e, w1)
    end.

Notation "'let*' x ':=' m 'in' k" := (andThen m (fun x => k))
  (at level 10, x pattern, m at level 100, k at level 200).

Definition Date_now : ResultAsync Z := fun w => (Ok (now w), w).

Definition ms_15d : Z := 15 * 24 * 60 * 60 * 1000.            (* ms('15d') *)
Definition SESSION_LIFETIME : Z := 1000 * 60 * 60 * 24 * 30.  (* 30 days *)
Definition RENEWAL_WINDOW : Z := ms_15d.

(** ** Session store adapter *)

Module Db.

(** Modelled from the spec: every operation of the adapter fails with
    [StoreUnavailable] on an infrastructure failure.  A store call is
    recorded, then either refused because the backend is down (nothing is
    read or written) or carried out. *)
Definition store_call {T} (op : StoreOp) (body : World -> Result T DbError * World)
  : ResultAsync T :=
  fun w =>
    if backend_down w then (Err StoreUnavailable, dispatch op w)
    else body (dispatch op w).

Definition find_user_by_id (uid : string) (us : list AuthUser) : option AuthUser :=
  find (fun u => String.eqb (auth_id u) uid) us.

Definition find_user_by_email (e : string) (us : list AuthUser) : option AuthUser :=
  find (fun u => String.eqb (auth_email u) e) us.

(** Modelled from the spec: [getFullSession] of src/lib/server/db/queries.ts
    is not among the sources.  It is the adapter's [get(lookupId)]: a point
    lookup joined with the owning identity's public attributes; no row is
    [NotFound], an unreachable backend is [StoreUnavailable]. *)
Definition getFullSession (sessionId : string) : ResultAsync (User * Session) :=
  store_call (OpGet sessionId) (fun w =>
    match sessions w !! sessionId with
    | Some s =>
        match find_user_by_id (userId s) (users w) with
        | Some u => (Ok (public u, s), w)
        | None => (Err NotFound, w)
        end
    | None => (Err NotFound, w)
    end).

(** Modelled from the spec: [deleteSession] is not among the sources.  It
    is the adapter's [delete(lookupId)]: removes the record; deleting an
    absent record is not an error. *)
Definition deleteSession (sessionId : string) : ResultAsync unit :=
  store_call (OpDelete sessionId) (fun w =>
    (Ok tt, with_sessions (delete sessionId) w)).

Definition renewed (t : Z) (s : Session) : Session :=
  mkSession (session_id s) (userId s) t.

(** Modelled from the spec: [extendSession] is not among the sources.  It
    is the adapter's [updateExpiry(lookupId, now + SESSION_LIFETIME)]: the
    new expiry is taken from the clock, and a record that no longer exists
    makes it a silent no-op. *)
Definition extendSession (sessionId : string) : ResultAsync unit :=
  fun w0 =>
    let target := now w0 + SESSION_LIFETIME in
    store_call (OpUpdateExpiry sessionId target) (fun w =>
      (Ok tt, with_sessions (alter (renewed target) sessionId) w)) w0.

(** Modelled from the spec: [createSessionDb] is not among the sources.  It
    is the adapter's [put(session)]: inserts or replaces the record keyed
    by its lookup identifier. *)
Definition createSessionDb (s : Session) : ResultAsync unit :=
  store_call (OpPut s) (fun w =>
    (Ok tt, with_sessions (insert (session_id s) s) w)).

(** Modelled from the spec: [getAuthUser] is not among the sources.  It is
    the credential lookup: the User row with that e-mail, or [NotFound]. *)
Definition getAuthUser (e : string) : ResultAsync AuthUser :=
  store_call (OpGetUser e) (fun w =>
    match find_user_by_email e (users w) with
    | Some u => (Ok u, w)
    | None => (Err NotFound, w)
    end).

End Db.

(** ** src/lib/server/auth/index.ts *)

Record SessionValidationResult := mkValidation {
  session : option Session;
  user : option User }.

Definition Anonymous : SessionValidationResult := mkValidation None None.

(** [crypto.getRandomValues(new Uint8Array(32))]. *)
Definition getRandomValues (n : nat) : ResultAsync (list Z) :=
  fun w => (Ok (map (fun i => entropy w i mod 256) (seq (drawn w) n)), take_entropy n w).

Definition generateSessionToken : ResultAsync string :=
  let* bytes := getRandomValues 32 in
  let token := Codec.encodeBase32LowerCaseNoPadding bytes in
  ok token.

Definition createSession (token : string) (userId : string) : ResultAsync Session :=
  let sessionId := Codec.encodeHexLowerCase (Codec.sha256 (Codec.TextEncoder_encode token)) in
  let* t := Date_now in
  let session := mkSession sessionId userId (t + 1000 * 60 * 60 * 24 * 30) in
  let* _ := Db.createSessionDb session in
  ok session.

Definition validateSessionToken (token : string) : ResultAsync SessionValidationResult :=
  let sessionId := Codec.encodeHexLowerCase (Codec.sha256 (Codec.TextEncoder_encode token)) in
  let* (user, session) := Db.getFullSession sessionId in
  let* t := Date_now in
  if t >=? expiresAt session then
    let* _ := Db.deleteSession sessionId in
    ok (mkValidation None None)
  else
    let* t' := Date_now in
    let* _ := (if t' >=? expiresAt session - ms_15d
               then Db.extendSession sessionId
               else ok tt) in
    ok (mkValidation (Some session) (Some user)).

(** ** Cookies *)

Inductive SameSite := Lax | Strict | SameSiteNone.

(** The options object handed to [cookies.set]; [None] is a key left out. *)
Record CookieOptions := mkOptions {
  opt_httpOnly : option bool;
  opt_secure : option bool;
  opt_sameSite : option SameSite;
  opt_expires : option Z;
  opt_maxAge : option Z;
  opt_path : string }.

(** A Set-Cookie header the response will carry. *)
Record SetCookie := mkSetCookie {
  cookie_value : string;
  HttpOnly : bool;
  Secure : bool;
  SameSite_attr : SameSite;
  Expires : option Z;
  MaxAge : option Z;
  Path : string }.

(** The framework's per-request [Cookies] object: the cookies the request
    came with, the ones the response will set, and whether the request URL
    is http://localhost (the one context the framework does not mark
    cookies [Secure] in). *)
Record Cookies := mkCookies {
  localhost_http : bool;
  incoming : gmap string string;
  outgoing : gmap string SetCookie }.

(** [cookies.set(name, value, opts)] is the web framework's, not the
    repository's: [opts] is laid over the framework's defaults, httpOnly =
    true, sameSite = lax, and secure = true except on http://localhost.
    Neither cookie function of the repository passes a [secure] key, so the
    framework's default decides that attribute. *)
Definition cookies_set (cookies : Cookies) (name value : string) (opts : CookieOptions)
  : Cookies :=
  let c := mkSetCookie value
             (default true (opt_httpOnly opts))
             (default (negb (localhost_http cookies)) (opt_secure opts))
             (default Lax (opt_sameSite opts))
             (opt_expires opts) (opt_maxAge opts) (opt_path opts) in
  mkCookies (localhost_http cookies) (incoming cookies) (<[name := c]> (outgoing cookies)).

Definition cookies_get (cookies : Cookies) (name : string) : option string :=
  incoming cookies !! name.

Definition setSessionTokenCookie (cookies : Cookies) (token : string) (expiresAt : Z)
  : Cookies :=
  cookies_set cookies "session" token
    (mkOptions (Some true) None (Some Lax) (Some expiresAt) None "/").

Definition deleteSessionTokenCookie (cookies : Cookies) : Cookies :=
  cookies_set cookies "session" "token"
    (mkOptions (Some true) None (Some Lax) None (Some 0) "/").

(** The attribute flags of a cookie: everything but its value and its
    lifetime. *)
Definition flags (c : SetCookie) : bool * bool * SameSite * string :=
  (HttpOnly c, Secure c, SameSite_attr c, Path c).

(** ** src/hooks.server.ts *)

Record Locals := mkLocals {
  locals_user : option User;
  locals_session : option Session }.

Record RequestEvent := mkEvent {
  cookies : Cookies;
  locals : Locals }.

(** Modelled from the spec: [getSessionCookie] is not among the sources.
    The middleware reads the cookie named [session]; absent is a valid
    case. *)
Definition getSessionCookie (event : RequestEvent) : option string :=
  cookies_get (cookies event) "session".

(** JavaScript's [!s] for [s : string | undefined]. *)
Definition falsy (s : option string) : bool :=
  match s with
  | None => true
  | Some t => String.eqb t ""
  end.

Section Hooks.

(** The rest of the request pipeline, [resolve]. *)
Context {Response : Type}.
Variable resolve : RequestEvent -> World -> Response * World.

Definition handle (event : RequestEvent) (w : World) : Response * World :=
  match getSessionCookie event with
  | Some sessionToken =>
      if falsy (getSessionCookie event) then
        resolve (mkEvent (cookies event) (mkLocals None None)) w
      else
        let (result, w1) := validateSessionToken sessionToken w in
        match result with
        | Ok (mkValidation (Some s) u) =>
            resolve (mkEvent (cookies event) (mkLocals u (Some s))) w1
        | _ =>
            resolve (mkEvent (deleteSessionTokenCookie (cookies event))
                             (mkLocals None None)) w1
        end
  | None => resolve (mkEvent (cookies event) (mkLocals None None)) w
  end.

End Hooks.

(** ** The auth routes *)

Inductive ResponseBody :=
  | Message (message : string)
  | Success.

(** [Response.json(body, { status })]; the status is 200 when left out. *)
Record Response := mkResponse {
  status : Z;
  body : ResponseBody }.

(** What [await request.json()] gives: a rejection for a body that is not
    JSON, else the two fields the schema looks at ([None]: the key is
    missing or is not a string). *)
Inductive RequestBody :=
  | NotJson
  | Json (email password : option string).

Section Routes.

(** [z.string().email()] of zod and [compare] of bcrypt-ts. *)
Variable is_email : string -> bool.
Variable compare : string -> string -> bool.

(** [schema.parse(body)]: the fields, or a ZodError ([None]). *)
Definition schema_parse (b : RequestBody) : option (string * string) :=
  match b with
  | Json (Some e) (Some p) =>
      if is_email e && (8 <=? Z.of_nat (String.length p)) then Some (e, p) else None
  | _ => None
  end.

(** [POST] of src/routes/(chat)/api/auth/signin/+server.ts. *)
Definition signin_POST (request : RequestBody) (cookies : Cookies) (w : World)
  : Response * Cookies * World :=
  match request with
  | NotJson => (mkResponse 500 (Message "Internal server error"), cookies, w)
  | _ =>
    match schema_parse request with
    | None => (mkResponse 400 (Message "Invalid input"), cookies, w)
    | Some (email, password) =>
      let (userResult, w1) := Db.getAuthUser email w in
      match userResult with
      | Err _ => (mkResponse 400 (Message "Invalid credentials"), cookies, w1)
      | Ok user =>
        let passwordIsCorrect := compare password (auth_password user) in
        if negb passwordIsCorrect then
          (mkResponse 400 (Message "Invalid credentials"), cookies, w1)
        else
          let (tokenResult, w2) := generateSessionToken w1 in
          match tokenResult with
          | Err _ => (mkResponse 500 (Message "Internal server error"), cookies, w2)
          | Ok token =>
            let (sessionResult, w3) := createSession token (auth_id user) w2 in
            match sessionResult with
            | Err _ => (mkResponse 500 (Message "Failed to create session"), cookies, w3)
            | Ok s =>
              (mkResponse 200 Success,
               setSessionTokenCookie cookies token (expiresAt s), w3)
            end
          end
      end
    end
  end.

End Routes.

(** Modelled from the spec: [invalidateSession] is not among the sources.
    Sign-out deletes the session: it is the adapter's [delete(lookupId)].
    The sign-out route awaits its result and drops it. *)
Definition invalidateSession (sessionId : string) : ResultAsync unit :=
  Db.deleteSession sessionId.

(** [POST] of src/routes/(chat)/api/auth/signout/+server.ts. *)
Definition signout_POST (locals : Locals) (cookies : Cookies) (w : World)
  : Response * Cookies * World :=
  let w1 := match locals_session locals with
            | Some s => snd (invalidateSession (session_id s) w)
            | None => w
            end in
  (mkResponse 200 Success, deleteSessionTokenCookie cookies, w1).

(** [GET] of src/routes/(chat)/api/user/+server.ts:
    [Response.json(null, { status: 401 })] without a user in the locals,
    [Response.json(locals.user)] with one. *)
Record UserResponse := mkUserResponse {
  user_status : Z;
  user_body : option User }.

Definition user_GET (locals : Locals) : UserResponse :=
  match locals_user locals with
  | None => mkUserResponse 401 None
  | Some u => mkUserResponse 200 (Some u)
  end.

Section Signup.

(** [z.string().email()] of zod, and [createAuthUser] of
    src/lib/server/db/queries.ts, which is not among the sources: any
    computation over the world that ends in the new User row or an error. *)
Variable is_email : string -> bool.
Variable createAuthUser : string -> string -> ResultAsync AuthUser.


End Signup.

(** A request served end to end: [handle], then the route [GET /api/user]
    as its [resolve]. *)
Definition serve_user_GET (event : RequestEvent) (w : World)
  : (UserResponse * Cookies) * World :=
  handle (fun ev w' => ((user_GET (locals ev), cookies ev), w')) event w.

(** A request that presents [token] as its session cookie. *)
Definition request_with (cks : Cookies) (token : string) : RequestEvent :=
  mkEvent (mkCookies (localhost_http cks) (<["session" := token]> (incoming cks)) (outgoing cks))
          (mkLocals None None).

(** ** The client *)

Module Client.

(** A parsed JSON value (numbers are the integers). *)
#[local] Unset Elimination Schemes.
Inductive JsValue :=
  | JNull
  | JBool (b : bool)
  | JNum (n : Z)
  | JStr (s : string)
  | JArr (items : list JsValue)
  | JObj (fields : list (string * JsValue)).
#[local] Set Elimination Schemes.

(** JavaScript's truthiness, as [if (v)], [v && ...] and [v || ...] test
    it. *)
Definition truthy (v : JsValue) : bool :=
  match v with
  | JNull => false
  | JBool b => b
  | JNum n => negb (n =? 0)
  | JStr s => negb (String.eqb s "")
  | JArr _ => true
  | JObj _ => true
  end.

(** What [await fetch(url)] and then [await response.json()] give: the
    fetch rejects, or a response arrives with its status and a body that
    parses ([Some]) or makes [json()] reject ([None]). *)
Inductive Fetched :=
  | NetworkError (message : string)
  | Responded (status : Z) (body : option JsValue).

(** [response.ok]. *)
Definition ok (status : Z) : bool := (200 <=? status) && (status <=? 299).

(** A settled promise. *)
Inductive Settled :=
  | Fulfilled (v : JsValue)
  | Rejected.

(** *** SynchronizedCookie and SelectedModel *)

Record SynchronizedCookie := mkSynchronizedCookie {
  key : string;
  value : string }.

(** [stored || value] for [stored : string | null]. *)
Definition stored_or (stored : option string) (value : string) : string :=
  match stored with
  | Some s => if String.eqb s "" then value else s
  | None => value
  end.

(** [new SynchronizedCookie(key, value)]; [browser] also stands for
    [typeof window !== 'undefined'], which one of the two versions of the
    class tests instead. *)
Definition SynchronizedCookie_new (browser : bool) (localStorage : gmap string string)
    (key value : string) : SynchronizedCookie :=
  mkSynchronizedCookie key
    (if browser then stored_or (localStorage !! key) value else value).

(** [new SelectedModel(value)]. *)
Definition SelectedModel_new (browser : bool) (localStorage : gmap string string)
    (value : string) : SynchronizedCookie :=
  SynchronizedCookie_new browser localStorage "selected-model" value.

(** The page as the setter sees it: the local storage, and the requests
    sent so far, each with its URL and the value in its body. *)
Record Page := mkPage {
  storage : gmap string string;
  requests : list (string * string) }.

Definition sync_url (k : string) : string := ("/api/synchronized-cookie/" ++ k)%string.

(** [set value(v)] of the version that tests [browser] around both the
    storage and the request. *)
Definition set_value_guarded (browser : bool) (c : SynchronizedCookie) (v : string)
    (p : Page) : SynchronizedCookie * Page :=
  (mkSynchronizedCookie (key c) v,
   if browser
   then mkPage (<[key c := v]> (storage p)) (requests p ++ [(sync_url (key c), v)])
   else p).

(** [set value(v)] of the version that tests [typeof window] around the
    storage only. *)
Definition set_value_unguarded (browser : bool) (c : SynchronizedCookie) (v : string)
    (p : Page) : SynchronizedCookie * Page :=
  (mkSynchronizedCookie (key c) v,
   mkPage (if browser then <[key c := v]> (storage p) else storage p)
          (requests p ++ [(sync_url (key c), v)])).

(** *** LocalStorage<T> *)

Inductive Completion (T : Type) :=
  | Returns (v : T)
  | Throws.
Arguments Returns {T} v.
Arguments Throws {T}.

Section LocalStorageClass.

(** [JSON.stringify] and [JSON.parse] at the type [T]; [None] is a
    SyntaxError. *)
Context {T : Type}.
Variable stringify : T -> string.
Variable parse : string -> option T.

Record LocalStorage := mkLocalStorage {
  ls_key : string;
  ls_defaultValue : T }.

Definition LocalStorage_get (browser : bool) (localStorage : gmap string string)
    (o : LocalStorage) : Completion T :=
  if negb browser then Returns (ls_defaultValue o)
  else
    match localStorage !! ls_key o with
    | None => Returns (ls_defaultValue o)
    | Some storedValue =>
        match parse storedValue with
        | Some v => Returns v
        | None => Throws
        end
    end.

Definition LocalStorage_set (browser : bool) (localStorage : gmap string string)
    (o : LocalStorage) (v : T) : gmap string string :=
  if negb browser then localStorage
  else <[ls_key o := stringify v]> localStorage.

Definition LocalStorage_delete (browser : bool) (localStorage : gmap string string)
    (o : LocalStorage) : gmap string string :=
  if negb browser then localStorage
  else delete (ls_key o) localStorage.

End LocalStorageClass.

(** *** The layout's [load] *)

Record LayoutData := mkLayoutData {
  chats : Settled;
  user : JsValue;
  sidebarCollapsed : bool;
  selectedChatModel : SynchronizedCookie }.

(** What a [load] returns, the URLs it fetched, in order, and how many
    times it called [console.error]. *)
Record Loaded := mkLoaded {
  data : LayoutData;
  fetched : list string;
  logged : nat }.

Section Load.

(** [chatModels] and [DEFAULT_CHAT_MODEL] of $lib/ai/models, which is not
    among the sources; of a model only its [id] is read. *)
Context {Model : Type}.
Variable model_id : Model -> string.
Variable chatModels : list Model.
Variable DEFAULT_CHAT_MODEL : string.

Variable browser : bool.
Variable localStorage : gmap string string.
Variable fetch : string -> Fetched.

(** The [try] block around the fetch of the user: the user and the number
    of errors logged. *)
Definition fetch_user : JsValue * nat :=
  match fetch "/api/user" with
  | NetworkError _ => (JNull, 1%nat)
  | Responded status body =>
      if ok status then
        match body with
        | Some j => (j, 0%nat)
        | None => (JNull, 1%nat)
        end
      else (JNull, 0%nat)
  end.

(** [localStorage.getItem('sidebar:state') !== 'true']. *)
Definition sidebar_collapsed : bool :=
  match localStorage !! "sidebar:state" with
  | Some s => negb (String.eqb s "true")
  | None => true
  end.

(** The model id after the check of the stored one against [chatModels]. *)
Definition checked_model_id : string :=
  match localStorage !! "selected-model" with
  | Some storedModel =>
      if negb (String.eqb storedModel "")
         && bool_decide (is_Some (find (fun model => String.eqb (model_id model) storedModel)
                                       chatModels))
      then storedModel
      else DEFAULT_CHAT_MODEL
  | None => DEFAULT_CHAT_MODEL
  end.

(** [fetch('/api/history').then((res) => res.json())]. *)
Definition history_json : Settled :=
  match fetch "/api/history" with
  | NetworkError _ => Rejected
  | Responded _ (Some j) => Fulfilled j
  | Responded _ None => Rejected
  end.

(** [fetch('/api/history').then((res) => res.ok ? res.json() : [])]. *)
Definition history_json_if_ok : Settled :=
  match fetch "/api/history" with
  | NetworkError _ => Rejected
  | Responded status body =>
      if ok status then
        match body with
        | Some j => Fulfilled j
        | None => Rejected
        end
      else Fulfilled (JArr [])
  end.

(** [load] of src/routes/(chat)/+layout.ts. *)
Definition layout_load : Loaded :=
  let '(user, logged) := if browser then fetch_user else (JNull, 0%nat) in
  let sidebarCollapsed := if browser then sidebar_collapsed else true in
  let modelId := if browser then checked_model_id else DEFAULT_CHAT_MODEL in
  let chats := if truthy user then history_json else Fulfilled (JArr []) in
  mkLoaded
    (mkLayoutData chats user sidebarCollapsed
       (SelectedModel_new browser localStorage modelId))
    ((if browser then ["/api/user"] else []) ++
     (if truthy user then ["/api/history"] else []))
    logged.

(** The other [load] among the sources, which returns at once on the
    server. *)
Definition layout_load_early_return : Loaded :=
  if negb browser then
    mkLoaded
      (mkLayoutData (Fulfilled (JArr [])) JNull true
         (SelectedModel_new browser localStorage DEFAULT_CHAT_MODEL))
      [] 0%nat
  else
    let '(user, logged) := fetch_user in
    let sidebarCollapsed := sidebar_collapsed in
    let modelId := checked_model_id in
    let chats := if truthy user then history_json_if_ok else Fulfilled (JArr []) in
    mkLoaded
      (mkLayoutData chats user sidebarCollapsed
         (SelectedModel_new browser localStorage modelId))
      (["/api/user"] ++ (if truthy user then ["/api/history"] else []))
      logged.

End Load.

(** *** The sign-in and sign-up form *)

Inductive Effect :=
  | ToastSuccess (message : string)
  | ToastError (message : JsValue)
  | Goto (path : string).

(** [result.message]: a TypeError on null ([None]), else the member, or
    undefined (here [JNull], falsy alike) when there is none. *)
Definition message_of (result : JsValue) : option JsValue :=
  match result with
  | JNull => None
  | JObj fields =>
      match find (fun kv => String.eqb (fst kv) "message") fields with
      | Some kv => Some (snd kv)
      | None => Some JNull
      end
  | _ => Some JNull
  end.

Definition network_error : list Effect :=
  [ToastError (JStr "Network error. Please try again.")].

(** [handleSubmit] of the form: the toasts and navigations it causes, in
    order, and [loading] when it is done.  [post url email password] is the
    fetch of [url] with the body [JSON.stringify({ email, password })]. *)
Definition handleSubmit (authType : string)
    (post : string -> string -> string -> Fetched) (email password : string)
  : list Effect * bool :=
  let effects :=
    match post ("/api/auth/" ++ authType)%string email password with
    | NetworkError _ => network_error
    | Responded _ None => network_error
    | Responded status (Some result) =>
        if ok status then
          [ToastSuccess ("Successfully " ++
                         (if String.eqb authType "signup" then "signed up" else "signed in")
                         ++ "!")%string;
           Goto "/"]
        else
          match message_of result with
          | None => network_error
          | Some m => [ToastError (if truthy m then m else JStr "Authentication failed")]
          end
    end in
  (effects, false).

(** *** The chat page *)



Section ChatPageMount.

(** The messages of the SyntaxError of [response.json()] and of the
    TypeError of a member access on null, which the engine chooses. *)
Variable syntax_error : string.
Variable type_error : string.

Variable chatId : string.
Variable fetch : string -> Fetched.




End ChatPageMount.

End Client.

(** What the form's fetch receives from a route: [Response.json(body,
    { status })], parsed again by [response.json()]. *)
Definition body_json (b : ResponseBody) : Client.JsValue :=
  match b with
  | Message m => Client.JObj [("message", Client.JStr m)]
  | Success => Client.JObj [("success", Client.JBool true)]
  end.

Definition respond (r : Response) : Client.Fetched :=
  Client.Responded (status r) (Some (body_json (body r))).

(** ** Sample worlds *)

Module Sample.

Definition alice : AuthUser := mkAuthUser "7b0c1f0e-5a0e-4c52-9d2b-1f6a3f0a9e11" "alice@example.com" "$2a$10$hash-of-alice".

Definition token : string := "aaaqeayeaudaocajbifqydiob4ibceqtcqkrmfyydenbwha5dypq".

Definition t0 : Z := 1700000000000.

Definition day : Z := 24 * 60 * 60 * 1000.

(** A world where [alice] holds a session for [token] that expires at
    [e]; the clock reads [t] and the backend follows the schedule [o]. *)
Definition world (e t : Z) (o : list bool) : World :=
  mkWorld {[ Codec.sessionIdOf token := mkSession (Codec.sessionIdOf token) (auth_id alice) e ]}
          [alice] t o [] (fun i => Z.of_nat i) 0.

Definition empty_world (t : Z) (o : list bool) : World :=
  mkWorld ∅ [alice] t o [] (fun i => Z.of_nat i) 0.

Definition no_cookies : Cookies := mkCookies false ∅ ∅.

End Sample.

(** ** Notions the properties are stated with *)

(** The lookup found the record of [token], joined to the identity [u]. *)
Definition record_found (w : World) (token : string) (u : User) (s : Session) : Prop :=
  fst (Db.getFullSession (Codec.sessionIdOf token) w) = Ok (u, s).

(** The statement that the delete on expiry and the renewal write are best
    effort: whatever happens to them, an expired record validates to
    Anonymous and a record inside the renewal window to its identity. *)
Definition writes_are_best_effort : Prop :=
  forall w token u s,
    record_found w token u s ->
    (now w >= expiresAt s ->
     fst (validateSessionToken token w) = Ok Anonymous) /\
    (expiresAt s - RENEWAL_WINDOW <= now w < expiresAt s ->
     fst (validateSessionToken token w) = Ok (mkValidation (Some s) (Some u))).

(** The statement that a record found expired always validates to
    Anonymous. *)
Definition expired_always_anonymous : Prop :=
  forall w token u s,
    record_found w token u s ->
    now w >= expiresAt s ->
    fst (validateSessionToken token w) = Ok (mkValidation None None).

(** The statement that a record found inside the renewal window always
    validates to its identity. *)
Definition renewing_always_valid : Prop :=
  forall w token u s,
    record_found w token u s ->
    expiresAt s - RENEWAL_WINDOW <= now w < expiresAt s ->
    fst (validateSessionToken token w) = Ok (mkValidation (Some s) (Some u)).

(** What can happen to a world between and during requests: the clock
    moves (to any instant), the backend's availability changes, a request
    presents a token for validation, a sign-out invalidates a session. *)
Inductive Event :=
  | Tick (t : Z)
  | Schedule (o : list bool)
  | Validate (token : string)
  | SignOut (sessionId : string).

Definition step (w : World) (e : Event) : World :=
  match e with
  | Tick t => set_clock t w
  | Schedule o => set_outages o w
  | Validate token => snd (validateSessionToken token w)
  | SignOut sessionId => snd (invalidateSession sessionId w)
  end.

Definition run (es : list Event) (w : World) : World := fold_left step es w.

(** The record [s'] is the record [s] at the same or a later expiry. *)
Definition extends (s s' : Session) : Prop :=
  session_id s' = session_id s /\ userId s' = userId s /\ expiresAt s <= expiresAt s'.

(** Every record present after the step was present before it, and is
    extended by it. *)
Definition never_backward (w w' : World) : Prop :=
  forall id s', sessions w' !! id = Some s' ->
    exists s, sessions w !! id = Some s /\ extends s s'.

(** The token [generateSessionToken] gives in the world [w]. *)
Definition next_token (w : World) : string :=
  Codec.encodeBase32LowerCaseNoPadding
    (map (fun i => entropy w i mod 256) (seq (drawn w) 32)).

Definition invalid_credentials : Response := mkResponse 400 (Message "Invalid credentials").

(** A body the schema accepts. *)
Definition well_formed (is_email : string -> bool) (e p : string) : Prop :=
  is_email e = true /\ (8 <= String.length p)%nat.

(** [id] is the primary key of the User table. *)
Definition users_keyed (w : World) : Prop := List.NoDup (map auth_id (users w)).

(** The string-valued fields of a session record ([expiresAt] is an
    instant): does one of them hold [token]. *)
Definition holds_token (token : string) (s : Session) : Prop :=
  session_id s = token \/ userId s = token.

(** The 32 bytes [generateSessionToken] draws in the world [w]. *)
Definition next_bytes (w : World) : list Z :=
  map (fun i => entropy w i mod 256) (seq (drawn w) 32).

(** A character of the token alphabet: a..z or 2..7. *)
Definition base32_char (c : ascii) : bool :=
  let n := Z.of_N (N_of_ascii c) in
  ((97 <=? n) && (n <=? 122)) || ((50 <=? n) && (n <=? 55)).

Fixpoint string_forall (f : ascii -> bool) (s : string) : bool :=
  match s with
  | EmptyString => true
  | String c r => f c && string_forall f r
  end.

(** The five bits a character of the token alphabet stands for. *)
Definition base32_bits (c : ascii) : list bool :=
  let n := Z.of_N (N_of_ascii c) in
  let q := if 97 <=? n then n - 97 else n - 24 in
  [Z.testbit q 4; Z.testbit q 3; Z.testbit q 2; Z.testbit q 1; Z.testbit q 0].

(** The sign-in route as the form's fetch reaches it: the body is the
    object with the two strings. *)
Definition post_signin (is_email : string -> bool) (compare : string -> string -> bool)
    (cks : Cookies) (w : World) (url email password : string) : Client.Fetched :=
  respond (fst (fst (signin_POST is_email compare (Json (Some email) (Some password)) cks w))).

Definition is_byte (b : Z) : Prop := 0 <= b < 256.



Section FormActions.

(** [getUserByEmail] and [createUser] of the queries and [hash] of bcrypt
    ([bcrypt.hash(password, 10)]), none of them among the sources: any
    computations over the world, any function. *)
Variable getUserByEmail : string -> ResultAsync AuthUser.
Variable createUser : string -> string -> ResultAsync AuthUser.
Variable hash : string -> string.


End FormActions.

(** [load] of src/routes/(chat)/+layout.server.ts, as the documentation
    gives it: [throw redirect(303, '/auth/login')] without a user unless
    anonymous chats are allowed, else the data with the user. *)
Inductive LayoutServerLoad :=
  | Redirect (status : Z) (location : string)
  | LayoutServerData (user : option User).

Definition layout_server_load (allowAnonymousChats : bool) (locals : Locals)
  : LayoutServerLoad :=
  match locals_user locals with
  | None =>
      if negb allowAnonymousChats then Redirect 303 "/auth/login"
      else LayoutServerData None
  | Some u => LayoutServerData (Some u)
  end.

(** The layout loaded behind [handle]. *)
Definition serve_layout (allowAnonymousChats : bool) (event : RequestEvent) (w : World)
  : LayoutServerLoad * World :=
  handle (fun ev w' => (layout_server_load allowAnonymousChats (locals ev), w')) event w.

(** The sign-in and the sign-out requests served end to end: [handle],
    then the route as its [resolve], on the cookies [handle] passes on. *)
Definition serve_signin_POST (is_email : string -> bool) (compare : string -> string -> bool)
    (request : RequestBody) (event : RequestEvent) (w : World)
  : (Response * Cookies) * World :=
  handle (fun ev w' =>
            let '(r, c, w'') := signin_POST is_email compare request (cookies ev) w' in
            ((r, c), w''))
         event w.

Definition serve_signout_POST (event : RequestEvent) (w : World)
  : (Response * Cookies) * World :=
  handle (fun ev w' =>
            let '(r, c, w'') := signout_POST (locals ev) (cookies ev) w' in
            ((r, c), w''))
         event w.

(** Every record of the Session table is stored under its own [id]. *)
Definition keyed (w : World) : Prop :=
  forall k s, sessions w !! k = Some s -> session_id s = k.

(** * Properties *)

(** ** The codec *)

Section CodecFacts.
Import Codec.

Lemma be_bytes_length n x : length (be_bytes n x) = n.
Proof. induction n as [|n IH]; simpl; [reflexivity | now rewrite IH]. Qed.

Lemma sha256_length msg : length (sha256 msg) = 32%nat.
Proof.
  unfold sha256, digest_bytes.
  rewrite !length_app, !be_bytes_length. reflexivity.
Qed.

Lemma encodeHexLowerCase_length bs :
  String.length (encodeHexLowerCase bs) = (2 * length bs)%nat.
Proof. induction bs as [|b r IH]; simpl; [reflexivity | rewrite IH; lia]. Qed.

(** The FIPS 180-4 test vector for the message abc, and the empty message. *)
Example sha256_abc :
  encodeHexLowerCase (sha256 (TextEncoder_encode "abc"))
  = "ba7816bf8f01cfea414140de5dae2223b00361a396177a9cb410ff61f20015ad".
Proof. vm_compute. reflexivity. Qed.

Example sha256_empty :
  encodeHexLowerCase (sha256 [])
  = "e3b0c44298fc1c149afbf4c8996fb92427ae41e4649b934ca495991b7852b855".
Proof. vm_compute. reflexivity. Qed.

Example K256_ends :
  length K256 = 64%nat /\ nth 0 K256 0 = 0x428a2f98 /\ nth 63 K256 0 = 0xc67178f2.
Proof. vm_compute. repeat split. Qed.

Example base32_hi : encodeBase32LowerCaseNoPadding [104; 105] = "nbuq".
Proof. vm_compute. reflexivity. Qed.

(** The lookup identifier has the 64 characters of a hex SHA-256 digest. *)
Lemma sessionIdOf_length token : String.length (sessionIdOf token) = 64%nat.
Proof.
  unfold sessionIdOf. now rewrite encodeHexLowerCase_length, sha256_length.
Qed.

(** Deterministic: the same token gives the same identifier. *)
Lemma sessionIdOf_deterministic t1 t2 : t1 = t2 -> sessionIdOf t1 = sessionIdOf t2.
Proof. now intros ->. Qed.

(** A string of another length than 64 is not its own lookup identifier. *)
Lemma sessionIdOf_differs token :
  String.length token <> 64%nat -> sessionIdOf token <> token.
Proof.
  intros Hlen Heq. apply Hlen. rewrite <- Heq at 1. apply sessionIdOf_length.
Qed.

Lemma base32_of_32_bytes bs :
  length bs = 32%nat -> String.length (encodeBase32LowerCaseNoPadding bs) = 52%nat.
Proof.
  intros H. unfold encodeBase32LowerCaseNoPadding.
  do 33 (destruct bs as [|? bs]; try discriminate H).
  reflexivity.
Qed.

End CodecFacts.

(** The token of [generateSessionToken] has 52 characters, whatever the
    random source delivers, and the call touches neither table. *)
Lemma generateSessionToken_spec w :
  exists token,
    generateSessionToken w = (Ok token, take_entropy 32 w) /\
    String.length token = 52%nat.
Proof.
  eexists. split; [reflexivity |].
  apply base32_of_32_bytes. now rewrite length_map, length_seq.
Qed.

(** ** The store adapter *)

Lemma down_at_dispatch k op w : down_at k (dispatch op w) = down_at (S k) w.
Proof.
  unfold down_at, dispatch; simpl.
  destruct (outages w) as [|o os]; [now destruct k | reflexivity].
Qed.

Lemma sessions_with_sessions f w : sessions (with_sessions f w) = f (sessions w).
Proof. reflexivity. Qed.

Lemma sessions_dispatch op w : sessions (dispatch op w) = sessions w.
Proof. reflexivity. Qed.

Lemma record_found_iff w token u s :
  record_found w token u s <->
  down_at 0 w = false /\
  sessions w !! Codec.sessionIdOf token = Some s /\
  exists a, Db.find_user_by_id (userId s) (users w) = Some a /\ u = public a.
Proof.
  unfold record_found, Db.getFullSession, Db.store_call, backend_down.
  destruct (down_at 0 w); simpl.
  - split; [discriminate | intros [? _]; discriminate].
  - destruct (sessions w !! Codec.sessionIdOf token) as [s'|] eqn:Hs; simpl.
    + destruct (Db.find_user_by_id (userId s') (users w)) as [a|] eqn:Ha; simpl.
      * split.
        -- intros [= <- <-]. repeat split; eauto.
        -- intros (_ & [= <-] & a' & Ha' & ->). rewrite Ha in Ha'. now inversion Ha'.
      * split; [discriminate |].
        intros (_ & [= <-] & a' & Ha' & _). rewrite Ha in Ha'. discriminate.
    + split; [discriminate | intros (_ & ? & _); discriminate].
Qed.

Lemma getFullSession_found w token u s :
  record_found w token u s ->
  Db.getFullSession (Codec.sessionIdOf token) w
  = (Ok (u, s), dispatch (OpGet (Codec.sessionIdOf token)) w).
Proof.
  unfold record_found, Db.getFullSession, Db.store_call.
  destruct (backend_down w); simpl; [discriminate |].
  destruct (sessions w !! _) as [s'|]; simpl; [| discriminate].
  destruct (Db.find_user_by_id _ _); simpl; [| discriminate].
  now intros [= <- <-].
Qed.

(** A lookup never changes a table. *)
Lemma getFullSession_frame id w :
  snd (Db.getFullSession id w) = dispatch (OpGet id) w.
Proof.
  unfold Db.getFullSession, Db.store_call.
  destruct (backend_down w); simpl; [reflexivity |].
  destruct (sessions w !! id) as [s|]; simpl; [| reflexivity].
  now destruct (Db.find_user_by_id _ _).
Qed.

Lemma deleteSession_eq id w :
  Db.deleteSession id w =
  if down_at 0 w then (Err StoreUnavailable, dispatch (OpDelete id) w)
  else (Ok tt, with_sessions (delete id) (dispatch (OpDelete id) w)).
Proof. reflexivity. Qed.

Lemma extendSession_eq id w :
  Db.extendSession id w =
  let target := now w + SESSION_LIFETIME in
  if down_at 0 w then (Err StoreUnavailable, dispatch (OpUpdateExpiry id target) w)
  else (Ok tt, with_sessions (alter (Db.renewed target) id)
                 (dispatch (OpUpdateExpiry id target) w)).
Proof. reflexivity. Qed.

Lemma createSessionDb_eq s w :
  Db.createSessionDb s w =
  if down_at 0 w then (Err StoreUnavailable, dispatch (OpPut s) w)
  else (Ok tt, with_sessions (insert (session_id s) s) (dispatch (OpPut s) w)).
Proof. reflexivity. Qed.

(** ** [validateSessionToken], case by case *)

(** The three outcomes for a record that was found, in the order the code
    tests them. *)
Lemma validate_found w token u s :
  record_found w token u s ->
  validateSessionToken token w =
  let id := Codec.sessionIdOf token in
  let w1 := dispatch (OpGet id) w in
  if now w >=? expiresAt s then
    match Db.deleteSession id w1 with
    | (Ok _, w2) => (Ok Anonymous, w2)
    | (Err e, w2) => (Err e, w2)
    end
  else if now w >=? expiresAt s - ms_15d then
    match Db.extendSession id w1 with
    | (Ok _, w2) => (Ok (mkValidation (Some s) (Some u)), w2)
    | (Err e, w2) => (Err e, w2)
    end
  else (Ok (mkValidation (Some s) (Some u)), w1).
Proof.
  intros Hf. unfold validateSessionToken.
  change (Codec.encodeHexLowerCase _) with (Codec.sessionIdOf token).
  unfold andThen at 1. rewrite (getFullSession_found _ _ _ _ Hf).
  cbv zeta. unfold andThen at 1, Date_now at 1.
  change (now (dispatch _ w)) with (now w).
  destruct (now w >=? expiresAt s).
  - unfold andThen. now destruct (Db.deleteSession _ _) as [[[]|e] w2].
  - unfold andThen at 1, Date_now at 1.
    change (now (dispatch _ w)) with (now w).
    destruct (now w >=? expiresAt s - ms_15d).
    + unfold andThen. now destruct (Db.extendSession _ _) as [[[]|e] w2].
    + reflexivity.
Qed.

(** Without a record the lookup's error is the result and nothing else is
    issued. *)
Lemma validate_not_found w token e :
  fst (Db.getFullSession (Codec.sessionIdOf token) w) = Err e ->
  validateSessionToken token w = (Err e, dispatch (OpGet (Codec.sessionIdOf token)) w).
Proof.
  intros He. unfold validateSessionToken.
  change (Codec.encodeHexLowerCase _) with (Codec.sessionIdOf token).
  unfold andThen at 1.
  pose proof (getFullSession_frame (Codec.sessionIdOf token) w) as Hw.
  destruct (Db.getFullSession _ w) as [[v|e'] w1]; simpl in *; [discriminate |].
  now inversion He; subst.
Qed.

Lemma geb_true a b : a >= b -> (a >=? b) = true.
Proof. intros H. rewrite Z.geb_leb. apply Z.leb_le. lia. Qed.

Lemma geb_false a b : a < b -> (a >=? b) = false.
Proof. intros H. rewrite Z.geb_leb. apply Z.leb_gt. lia. Qed.

(** Outside the renewal window the lookup is all that happens. *)
Lemma validate_outside_window w token u s :
  record_found w token u s ->
  now w < expiresAt s - ms_15d ->
  validateSessionToken token w
  = (Ok (mkValidation (Some s) (Some u)), dispatch (OpGet (Codec.sessionIdOf token)) w).
Proof.
  intros Hf Hnow.
  assert (now w < expiresAt s) as Hlive by (unfold ms_15d in Hnow; lia).
  rewrite (validate_found _ _ _ _ Hf). cbv zeta.
  now rewrite (geb_false _ _ Hlive), (geb_false _ _ Hnow).
Qed.

(** C5.  A token whose record is found with [now < expiresAt -
    RENEWAL_WINDOW] validates to the identity and mutates nothing: the
    lookup is the only store call issued (no update, no delete), and both
    tables, hence the stored session record, are as before. *)
Theorem valid_outside_window_no_mutation w token u s :
  record_found w token u s ->
  now w < expiresAt s - RENEWAL_WINDOW ->
  fst (validateSessionToken token w) = Ok (mkValidation (Some s) (Some u)) /\
  issued (snd (validateSessionToken token w)) = issued w ++ [OpGet (Codec.sessionIdOf token)] /\
  sessions (snd (validateSessionToken token w)) = sessions w /\
  users (snd (validateSessionToken token w)) = users w /\
  sessions (snd (validateSessionToken token w)) !! Codec.sessionIdOf token = Some s.
Proof.
  intros Hf Hnow. unfold RENEWAL_WINDOW in Hnow.
  rewrite (validate_outside_window _ _ _ _ Hf Hnow). cbn [fst snd].
  repeat split.
  rewrite sessions_dispatch. now apply record_found_iff in Hf as (_ & Hs & _).
Qed.

Lemma valid_outside_window_no_mutation_witness :
  let w := Sample.world (Sample.t0 + 30 * Sample.day) (Sample.t0 + 1000) [] in
  fst (validateSessionToken Sample.token w)
  = Ok (mkValidation
          (Some (mkSession (Codec.sessionIdOf Sample.token) (auth_id Sample.alice)
                           (Sample.t0 + 30 * Sample.day)))
          (Some (public Sample.alice))) /\
  sessions (snd (validateSessionToken Sample.token w)) = sessions w.
Proof.
  intros w.
  destruct (valid_outside_window_no_mutation w Sample.token (public Sample.alice)
              (mkSession (Codec.sessionIdOf Sample.token) (auth_id Sample.alice)
                         (Sample.t0 + 30 * Sample.day)))
    as (Hr & _ & Hs & _).
  - vm_compute. reflexivity.
  - vm_compute. reflexivity.
  - split; [exact Hr | exact Hs].
Defined.

(** A session that expired a day ago, the store answering the lookup and
    failing the delete: the record is found, [now >= expiresAt] holds, the
    one delete is issued, and the validation returns the store's error, not
    Anonymous. *)
Lemma expired_with_failed_delete_is_not_anonymous :
  let w := Sample.world Sample.t0 (Sample.t0 + Sample.day) [false; true] in
  let s := mkSession (Codec.sessionIdOf Sample.token) (auth_id Sample.alice) Sample.t0 in
  record_found w Sample.token (public Sample.alice) s /\
  now w >= expiresAt s /\
  issued (snd (validateSessionToken Sample.token w))
  = [OpGet (Codec.sessionIdOf Sample.token); OpDelete (Codec.sessionIdOf Sample.token)] /\
  fst (validateSessionToken Sample.token w) = Err StoreUnavailable /\
  ~ expired_always_anonymous.
Proof.
  intros w s.
  assert (record_found w Sample.token (public Sample.alice) s) as Hf
    by (vm_compute; reflexivity).
  assert (now w >= expiresAt s) as Hnow by (vm_compute; discriminate).
  assert (fst (validateSessionToken Sample.token w) = Err StoreUnavailable) as He
    by (vm_compute; reflexivity).
  split; [exact Hf |]. split; [exact Hnow |].
  split; [vm_compute; reflexivity |]. split; [exact He |].
  intros Hall. specialize (Hall _ _ _ _ Hf Hnow). rewrite He in Hall. discriminate Hall.
Qed.

(** C3, as the code has it.  A token whose record is found with [now >=
    expiresAt] issues, after the lookup, exactly one delete of that record
    and no renewal: the expiry test comes first, so the renewal test
    (which such a record would also pass) is never reached.  The store
    answering the delete, the result is Anonymous (null session, null
    user) and the record is gone. *)
Theorem expired_token_deleted_and_anonymous w token u s :
  record_found w token u s ->
  now w >= expiresAt s ->
  issued (snd (validateSessionToken token w))
  = issued w ++ [OpGet (Codec.sessionIdOf token); OpDelete (Codec.sessionIdOf token)] /\
  (down_at 1 w = false ->
   fst (validateSessionToken token w) = Ok (mkValidation None None) /\
   sessions (snd (validateSessionToken token w))
   = delete (Codec.sessionIdOf token) (sessions w)).
Proof.
  intros Hf Hnow.
  rewrite (validate_found _ _ _ _ Hf). cbv zeta.
  rewrite (geb_true _ _ Hnow), deleteSession_eq, down_at_dispatch.
  destruct (down_at 1 w); simpl.
  - split; [now rewrite <- app_assoc | discriminate].
  - split; [now rewrite <- app_assoc | now intros _].
Qed.

Lemma expired_token_deleted_and_anonymous_witness :
  let w := Sample.world Sample.t0 (Sample.t0 + 31 * Sample.day) [] in
  fst (validateSessionToken Sample.token w) = Ok Anonymous /\
  sessions (snd (validateSessionToken Sample.token w)) !! Codec.sessionIdOf Sample.token = None.
Proof.
  intros w.
  destruct (expired_token_deleted_and_anonymous w Sample.token (public Sample.alice)
              (mkSession (Codec.sessionIdOf Sample.token) (auth_id Sample.alice) Sample.t0))
    as (_ & H).
  - vm_compute. reflexivity.
  - vm_compute. discriminate.
  - destruct H as (Hr & Hs); [reflexivity |].
    split; [exact Hr |]. rewrite Hs. apply lookup_delete_eq.
Defined.

(** A session five days from expiry, the store answering the lookup and
    failing the renewal: the record is found inside the renewal window, the
    one renewal is issued with the target [now + SESSION_LIFETIME], the
    validation returns the store's error, not the identity, and the record
    keeps its old expiry. *)
Lemma renewing_with_failed_write_is_not_valid :
  let w := Sample.world (Sample.t0 + 5 * Sample.day) Sample.t0 [false; true] in
  let s := mkSession (Codec.sessionIdOf Sample.token) (auth_id Sample.alice)
                     (Sample.t0 + 5 * Sample.day) in
  record_found w Sample.token (public Sample.alice) s /\
  expiresAt s - RENEWAL_WINDOW <= now w < expiresAt s /\
  issued (snd (validateSessionToken Sample.token w))
  = [OpGet (Codec.sessionIdOf Sample.token);
     OpUpdateExpiry (Codec.sessionIdOf Sample.token) (Sample.t0 + 30 * Sample.day)] /\
  fst (validateSessionToken Sample.token w) = Err StoreUnavailable /\
  sessions (snd (validateSessionToken Sample.token w)) !! Codec.sessionIdOf Sample.token
  = Some s /\
  ~ renewing_always_valid.
Proof.
  intros w s.
  assert (record_found w Sample.token (public Sample.alice) s) as Hf
    by (vm_compute; reflexivity).
  assert (expiresAt s - RENEWAL_WINDOW <= now w < expiresAt s) as Hwin
    by (vm_compute; split; [discriminate | reflexivity]).
  assert (fst (validateSessionToken Sample.token w) = Err StoreUnavailable) as He
    by (vm_compute; reflexivity).
  split; [exact Hf |]. split; [exact Hwin |].
  split; [vm_compute; reflexivity |]. split; [exact He |].
  split; [vm_compute; reflexivity |].
  intros Hall. specialize (Hall _ _ _ _ Hf Hwin). rewrite He in Hall. discriminate Hall.
Qed.

(** C2, as the code has it.  A token whose record is found with [expiresAt
    - RENEWAL_WINDOW <= now < expiresAt] (RENEWAL_WINDOW = 15 days) issues,
    after the lookup, exactly one renewal, whose target is [now +
    SESSION_LIFETIME] (30 days): it is taken from the clock and the old
    [expiresAt] does not enter it.  The store answering the renewal, the
    result is the session's identity and the record expires at [now +
    SESSION_LIFETIME]. *)
Theorem renewal_window_extends_from_now w token u s :
  record_found w token u s ->
  expiresAt s - RENEWAL_WINDOW <= now w < expiresAt s ->
  RENEWAL_WINDOW = 15 * 86400000 /\
  SESSION_LIFETIME = 30 * 86400000 /\
  issued (snd (validateSessionToken token w))
  = issued w ++ [OpGet (Codec.sessionIdOf token);
                 OpUpdateExpiry (Codec.sessionIdOf token) (now w + SESSION_LIFETIME)] /\
  (down_at 1 w = false ->
   fst (validateSessionToken token w) = Ok (mkValidation (Some s) (Some u)) /\
   sessions (snd (validateSessionToken token w))
   = <[Codec.sessionIdOf token :=
         mkSession (session_id s) (userId s) (now w + SESSION_LIFETIME)]> (sessions w)).
Proof.
  intros Hf [Hlo Hhi]. unfold RENEWAL_WINDOW in Hlo.
  do 2 (split; [reflexivity |]).
  rewrite (validate_found _ _ _ _ Hf). cbv zeta.
  rewrite (geb_false _ _ Hhi), (geb_true (now w) (expiresAt s - ms_15d)) by lia.
  rewrite extendSession_eq, down_at_dispatch. cbv zeta.
  change (now (dispatch _ w)) with (now w).
  destruct (down_at 1 w); simpl.
  - split; [now rewrite <- app_assoc | discriminate].
  - split; [now rewrite <- app_assoc |]. intros _. split; [reflexivity |].
    apply record_found_iff in Hf as (_ & Hs & _).
    apply map_eq. intros k.
    destruct (decide (Codec.sessionIdOf token = k)) as [<-|Hne].
    + now rewrite lookup_alter_eq, lookup_insert_eq, Hs.
    + now rewrite lookup_alter_ne, lookup_insert_ne.
Qed.

Lemma renewal_window_extends_from_now_witness :
  let w := Sample.world (Sample.t0 + 30 * Sample.day) (Sample.t0 + 20 * Sample.day) [] in
  fst (validateSessionToken Sample.token w)
  = Ok (mkValidation
          (Some (mkSession (Codec.sessionIdOf Sample.token) (auth_id Sample.alice)
                           (Sample.t0 + 30 * Sample.day)))
          (Some (public Sample.alice))) /\
  expiresAt <$> (sessions (snd (validateSessionToken Sample.token w))
                 !! Codec.sessionIdOf Sample.token)
  = Some (Sample.t0 + 50 * Sample.day).
Proof.
  intros w.
  destruct (renewal_window_extends_from_now w Sample.token (public Sample.alice)
              (mkSession (Codec.sessionIdOf Sample.token) (auth_id Sample.alice)
                         (Sample.t0 + 30 * Sample.day)))
    as (_ & _ & _ & H).
  - vm_compute. reflexivity.
  - vm_compute. split; [discriminate | reflexivity].
  - destruct H as (Hr & Hs); [reflexivity |].
    split; [exact Hr |]. rewrite Hs, lookup_insert_eq. reflexivity.
Defined.

(** ** Store failures during validation *)

(** Two requests with the backend going down right after the lookup: one
    for a session expired ten days ago, one for a session ten days from
    expiry.  Both validations end in the store's error. *)
Lemma failed_write_is_surfaced :
  let expired := Sample.world (Sample.t0 - 10 * Sample.day) Sample.t0 [false; true] in
  let renewing := Sample.world (Sample.t0 + 10 * Sample.day) Sample.t0 [false; true] in
  record_found expired Sample.token (public Sample.alice)
    (mkSession (Codec.sessionIdOf Sample.token) (auth_id Sample.alice)
               (Sample.t0 - 10 * Sample.day)) /\
  fst (validateSessionToken Sample.token expired) = Err StoreUnavailable /\
  record_found renewing Sample.token (public Sample.alice)
    (mkSession (Codec.sessionIdOf Sample.token) (auth_id Sample.alice)
               (Sample.t0 + 10 * Sample.day)) /\
  fst (validateSessionToken Sample.token renewing) = Err StoreUnavailable /\
  ~ writes_are_best_effort.
Proof.
  intros expired renewing.
  assert (record_found expired Sample.token (public Sample.alice)
            (mkSession (Codec.sessionIdOf Sample.token) (auth_id Sample.alice)
                       (Sample.t0 - 10 * Sample.day))) as Hf
    by (vm_compute; reflexivity).
  assert (fst (validateSessionToken Sample.token expired) = Err StoreUnavailable) as He
    by (vm_compute; reflexivity).
  split; [exact Hf |]. split; [exact He |].
  split; [vm_compute; reflexivity |]. split; [vm_compute; reflexivity |].
  intros Hbe. destruct (Hbe _ _ _ _ Hf) as [Hanon _].
  rewrite He in Hanon. specialize (Hanon ltac:(vm_compute; discriminate)).
  discriminate Hanon.
Qed.

(** C1, as the code has it.  The delete on expiry and the renewal write
    are inside the [safeTry] block: when the store fails one of them, the
    validation ends in that error, in place of Anonymous for an expired
    record and in place of the identity for a record inside the renewal
    window.  The failed write leaves the Session table as it was. *)
Theorem failed_write_ends_validation w token u s :
  record_found w token u s ->
  down_at 1 w = true ->
  (now w >= expiresAt s ->
   fst (validateSessionToken token w) = Err StoreUnavailable /\
   sessions (snd (validateSessionToken token w)) = sessions w) /\
  (expiresAt s - RENEWAL_WINDOW <= now w < expiresAt s ->
   fst (validateSessionToken token w) = Err StoreUnavailable /\
   sessions (snd (validateSessionToken token w)) = sessions w).
Proof.
  intros Hf Hdown. rewrite (validate_found _ _ _ _ Hf). cbv zeta. split.
  - intros Hnow.
    rewrite (geb_true _ _ Hnow), deleteSession_eq, down_at_dispatch, Hdown.
    now split.
  - intros [Hlo Hhi]. unfold RENEWAL_WINDOW in Hlo.
    rewrite (geb_false _ _ Hhi), (geb_true (now w) (expiresAt s - ms_15d)) by lia.
    rewrite extendSession_eq, down_at_dispatch, Hdown. now split.
Qed.

Lemma failed_write_ends_validation_witness :
  let w := Sample.world (Sample.t0 + 10 * Sample.day) Sample.t0 [false; true] in
  fst (validateSessionToken Sample.token w) = Err StoreUnavailable /\
  sessions (snd (validateSessionToken Sample.token w)) = sessions w.
Proof.
  intros w.
  destruct (failed_write_ends_validation w Sample.token (public Sample.alice)
              (mkSession (Codec.sessionIdOf Sample.token) (auth_id Sample.alice)
                         (Sample.t0 + 10 * Sample.day)))
    as (_ & H).
  - vm_compute. reflexivity.
  - reflexivity.
  - apply H. vm_compute. split; [discriminate | reflexivity].
Defined.

(** ** Monotonic expiry *)

Lemma extends_refl s : extends s s.
Proof. unfold extends. repeat split; lia. Qed.

Lemma extends_trans s1 s2 s3 : extends s1 s2 -> extends s2 s3 -> extends s1 s3.
Proof. unfold extends. intros (-> & -> & ?) (-> & -> & ?). repeat split; lia. Qed.

Lemma never_backward_same w w' : sessions w' = sessions w -> never_backward w w'.
Proof. intros Heq id s' Hs'. rewrite Heq in Hs'. eauto using extends_refl. Qed.

Lemma validate_never_backward token w :
  never_backward w (snd (validateSessionToken token w)).
Proof.
  destruct (fst (Db.getFullSession (Codec.sessionIdOf token) w)) as [[u s]|e] eqn:Hget.
  - rewrite (validate_found _ _ _ _ Hget). cbv zeta.
    apply record_found_iff in Hget as (_ & Hs & _).
    destruct (now w >=? expiresAt s) eqn:Hexp.
    + rewrite deleteSession_eq. destruct (down_at 0 _); simpl.
      * now apply never_backward_same.
      * intros id s' Hs'.
        rewrite sessions_with_sessions, !sessions_dispatch in Hs'.
        apply lookup_delete_Some in Hs' as [_ Hs'].
        eauto using extends_refl.
    + destruct (now w >=? expiresAt s - ms_15d) eqn:Hwin.
      * rewrite extendSession_eq. cbv zeta. destruct (down_at 0 _); simpl.
        -- now apply never_backward_same.
        -- intros id s' Hs'.
           rewrite sessions_with_sessions, !sessions_dispatch in Hs'.
           destruct (decide (Codec.sessionIdOf token = id)) as [<-|Hne].
           ++ rewrite lookup_alter_eq, Hs in Hs'. simpl in Hs'. inversion Hs'; subst.
              exists s. split; [exact Hs |]. unfold extends, Db.renewed; simpl.
              repeat split.
              rewrite Z.geb_leb in Hwin. apply Z.leb_le in Hwin.
              unfold ms_15d, SESSION_LIFETIME in *. lia.
           ++ rewrite lookup_alter_ne in Hs' by exact Hne. eauto using extends_refl.
      * now apply never_backward_same.
  - rewrite (validate_not_found _ _ _ Hget). now apply never_backward_same.
Qed.

Lemma invalidate_never_backward sessionId w :
  never_backward w (snd (invalidateSession sessionId w)).
Proof.
  unfold invalidateSession. rewrite deleteSession_eq.
  destruct (down_at 0 w); simpl; [now apply never_backward_same |].
  intros id s' Hs'. rewrite sessions_with_sessions, sessions_dispatch in Hs'.
  apply lookup_delete_Some in Hs' as [_ Hs'].
  eauto using extends_refl.
Qed.

Lemma step_never_backward e w : never_backward w (step w e).
Proof.
  destruct e as [t|o|token|sessionId]; simpl.
  - now apply never_backward_same.
  - now apply never_backward_same.
  - apply validate_never_backward.
  - apply invalidate_never_backward.
Qed.

Lemma never_backward_trans w1 w2 w3 :
  never_backward w1 w2 -> never_backward w2 w3 -> never_backward w1 w3.
Proof.
  intros H12 H23 id s3 Hs3.
  destruct (H23 _ _ Hs3) as (s2 & Hs2 & E23).
  destruct (H12 _ _ Hs2) as (s1 & Hs1 & E12).
  eauto using extends_trans.
Qed.

Lemma run_never_backward es : forall w, never_backward w (run es w).
Proof.
  induction es as [|e es IH]; intros w; simpl.
  - now apply never_backward_same.
  - eapply never_backward_trans; [apply step_never_backward | apply IH].
Qed.

(** C6.  Along any sequence of validations (with the renewals and deletes
    they issue) and sign-outs, the clock and the backend's availability
    changing at will in between, take any two points: a session record that is still there at the later one was
    there at the earlier one, for the same identity, and its [expiresAt]
    at the later point is not before its [expiresAt] at the earlier
    point. *)
Theorem expiresAt_never_moves_backward w before after id s' :
  sessions (run (before ++ after) w) !! id = Some s' ->
  exists s,
    sessions (run before w) !! id = Some s /\
    userId s' = userId s /\
    expiresAt s <= expiresAt s'.
Proof.
  intros Hs'. unfold run in Hs'. rewrite fold_left_app in Hs'.
  destruct (run_never_backward after _ _ _ Hs') as (s & Hs & _ & Hu & Hle).
  eauto.
Qed.

Lemma expiresAt_never_moves_backward_witness :
  let w := Sample.world (Sample.t0 + 30 * Sample.day) Sample.t0 [] in
  exists s,
    sessions (run [Validate Sample.token] w) !! Codec.sessionIdOf Sample.token = Some s /\
    Sample.t0 + 30 * Sample.day <= Sample.t0 + 50 * Sample.day /\
    expiresAt s <= Sample.t0 + 50 * Sample.day.
Proof.
  intros w.
  destruct (expiresAt_never_moves_backward w [Validate Sample.token]
              [Tick (Sample.t0 + 20 * Sample.day); Validate Sample.token]
              (Codec.sessionIdOf Sample.token)
              (mkSession (Codec.sessionIdOf Sample.token) (auth_id Sample.alice)
                         (Sample.t0 + 50 * Sample.day)))
    as (s & Hs & _ & Hle).
  - vm_compute. reflexivity.
  - exists s. split; [exact Hs |]. split; [vm_compute; discriminate | exact Hle].
Defined.

(** ** The cookie binder *)

Lemma next_token_length w : String.length (next_token w) = 52%nat.
Proof.
  unfold next_token. apply base32_of_32_bytes. now rewrite length_map, length_seq.
Qed.

Lemma createSession_eq token uid w :
  createSession token uid w =
  let s := mkSession (Codec.sessionIdOf token) uid (now w + SESSION_LIFETIME) in
  if down_at 0 w then (Err StoreUnavailable, dispatch (OpPut s) w)
  else (Ok s, with_sessions (insert (Codec.sessionIdOf token) s) (dispatch (OpPut s) w)).
Proof.
  unfold createSession, andThen, Date_now. rewrite createSessionDb_eq.
  cbv zeta. change (Codec.encodeHexLowerCase _) with (Codec.sessionIdOf token).
  now destruct (down_at 0 w).
Qed.

Section RouteFacts.

Variable is_email : string -> bool.
Variable compare : string -> string -> bool.

Lemma schema_parse_well_formed e p :
  well_formed is_email e p -> schema_parse is_email (Json (Some e) (Some p)) = Some (e, p).
Proof.
  intros [He Hp]. unfold schema_parse. rewrite He.
  replace (8 <=? Z.of_nat (String.length p)) with true; [reflexivity |].
  symmetry. apply Z.leb_le. lia.
Qed.

(** The route, for a body the schema accepts. *)
Lemma signin_POST_eq e p cookies w :
  well_formed is_email e p ->
  signin_POST is_email compare (Json (Some e) (Some p)) cookies w =
  match Db.getAuthUser e w with
  | (Err _, w1) => (invalid_credentials, cookies, w1)
  | (Ok a, w1) =>
      if compare p (auth_password a) then
        match createSession (next_token w1) (auth_id a) (take_entropy 32 w1) with
        | (Err _, w3) => (mkResponse 500 (Message "Failed to create session"), cookies, w3)
        | (Ok s, w3) =>
            (mkResponse 200 Success,
             setSessionTokenCookie cookies (next_token w1) (expiresAt s), w3)
        end
      else (invalid_credentials, cookies, w1)
  end.
Proof.
  intros Hwf. unfold signin_POST. rewrite (schema_parse_well_formed _ _ Hwf).
  destruct (Db.getAuthUser e w) as [[a|err] w1]; [| reflexivity].
  destruct (compare p (auth_password a)); [| reflexivity].
  cbn [negb]. change (generateSessionToken w1) with (Ok (E := DbError) (next_token w1), take_entropy 32 w1).
  reflexivity.
Qed.

Lemma getAuthUser_eq e w :
  Db.getAuthUser e w =
  if down_at 0 w then (Err StoreUnavailable, dispatch (OpGetUser e) w)
  else match Db.find_user_by_email e (users w) with
       | Some a => (Ok a, dispatch (OpGetUser e) w)
       | None => (Err NotFound, dispatch (OpGetUser e) w)
       end.
Proof. reflexivity. Qed.

(** Whatever the request, the route leaves the cookies alone or writes the
    session cookie for the token whose record it has just stored, with that
    record's expiry. *)
Lemma signin_POST_cookie request cookies w :
  snd (fst (signin_POST is_email compare request cookies w)) = cookies \/
  exists token s,
    fst (fst (signin_POST is_email compare request cookies w)) = mkResponse 200 Success /\
    sessions (snd (signin_POST is_email compare request cookies w))
      !! Codec.sessionIdOf token = Some s /\
    snd (fst (signin_POST is_email compare request cookies w))
    = setSessionTokenCookie cookies token (expiresAt s).
Proof.
  destruct request as [|[e|] [p|]]; try (now left).
  destruct (schema_parse is_email (Json (Some e) (Some p))) as [[e' p']|] eqn:Hparse;
    [| left; unfold signin_POST; now rewrite Hparse].
  assert (well_formed is_email e p /\ e' = e /\ p' = p) as (Hwf & -> & ->).
  { unfold schema_parse in Hparse.
    destruct (is_email e) eqn:He; [| discriminate].
    destruct (8 <=? Z.of_nat (String.length p)) eqn:Hp; [| discriminate].
    apply Z.leb_le in Hp. inversion Hparse; subst. repeat split; [exact He | lia]. }
  rewrite (signin_POST_eq _ _ _ _ Hwf).
  destruct (Db.getAuthUser e w) as [[a|err] w1]; [| now left].
  destruct (compare p (auth_password a)); [| now left].
  rewrite createSession_eq. cbv zeta.
  destruct (down_at 0 (take_entropy 32 w1)); [now left |].
  right. eexists _, _. repeat split. simpl. apply lookup_insert_eq.
Qed.

End RouteFacts.

(** C4.  The session cookie is written under the name [session] with the
    raw token as its value, HttpOnly, SameSite=Lax, Path=/, an expiry equal
    to the [expiresAt] handed over, and Secure in every context but
    http://localhost (production is such a context); at sign-in the route
    hands over the [expiresAt] of the session record it has just stored.
    Clearing, which is all sign-out does to the cookies, writes the cookie
    [session] with Max-Age=0 and the same attribute flags. *)
Theorem session_cookie_attributes is_email compare request locals c token e w :
  outgoing (setSessionTokenCookie c token e) !! "session"
  = Some (mkSetCookie token true (negb (localhost_http c)) Lax (Some e) None "/") /\
  outgoing (deleteSessionTokenCookie c) !! "session"
  = Some (mkSetCookie "token" true (negb (localhost_http c)) Lax None (Some 0) "/") /\
  flags <$> outgoing (deleteSessionTokenCookie c) !! "session"
  = flags <$> outgoing (setSessionTokenCookie c token e) !! "session" /\
  (snd (fst (signin_POST is_email compare request c w)) = c \/
   exists token' s,
     sessions (snd (signin_POST is_email compare request c w))
       !! Codec.sessionIdOf token' = Some s /\
     snd (fst (signin_POST is_email compare request c w))
     = setSessionTokenCookie c token' (expiresAt s)) /\
  snd (fst (signout_POST locals c w)) = deleteSessionTokenCookie c.
Proof.
  unfold setSessionTokenCookie, deleteSessionTokenCookie, cookies_set; simpl.
  rewrite !lookup_insert_eq. repeat split.
  destruct (signin_POST_cookie is_email compare request c w) as [H|(t & s & _ & Hs & Hc)].
  - now left.
  - right. exists t, s. split; [exact Hs | exact Hc].
Qed.

(** ** The request-authentication middleware *)

(** C9.  When the validation of the presented token ends in an error (the
    store being unavailable is one), [handle] fails open: the request is
    not rejected but handed on to [resolve], with user and session both
    null in its locals and with the session cookie cleared; the world is
    the one the failed validation left. *)
Theorem handle_fails_open {R} (resolve : RequestEvent -> World -> R * World)
    event w token err w1 :
  getSessionCookie event = Some token ->
  token <> "" ->
  validateSessionToken token w = (Err err, w1) ->
  handle resolve event w
  = resolve (mkEvent (deleteSessionTokenCookie (cookies event)) (mkLocals None None)) w1 /\
  MaxAge <$> outgoing (deleteSessionTokenCookie (cookies event)) !! "session" = Some (Some 0).
Proof.
  intros Hcookie Hne Hval. unfold handle. rewrite Hcookie. simpl.
  apply String.eqb_neq in Hne. rewrite Hne, Hval.
  repeat split. unfold deleteSessionTokenCookie, cookies_set; simpl.
  now rewrite lookup_insert_eq.
Qed.

Lemma handle_fails_open_witness :
  let event := mkEvent (mkCookies false {[ "session" := Sample.token ]} ∅)
                       (mkLocals None None) in
  let w := Sample.world (Sample.t0 + 30 * Sample.day) Sample.t0 [true] in
  fst (handle (fun ev w' => (ev, w')) event w)
  = mkEvent (deleteSessionTokenCookie (cookies event)) (mkLocals None None).
Proof.
  intros event w.
  destruct (handle_fails_open (fun ev w' => (ev, w')) event w Sample.token StoreUnavailable
              (dispatch (OpGet (Codec.sessionIdOf Sample.token)) w)) as (H & _).
  - reflexivity.
  - discriminate.
  - vm_compute. reflexivity.
  - rewrite H. reflexivity.
Defined.

(** ** Sign-in *)

(** C10.  Two sign-in requests with bodies the schema accepts, one for an
    e-mail no user has, one for a known e-mail with a password that does
    not compare: both get status 400 with the message 'Invalid
    credentials', so the two responses are equal; in both the cookies are
    untouched (no cookie set), the Session table is as before and the
    credential lookup is the only store call (no session created). *)
Theorem invalid_credentials_indistinguishable
    (is_email : string -> bool) (compare : string -> string -> bool)
    e1 p1 c1 w1 e2 p2 c2 w2 a :
  well_formed is_email e1 p1 ->
  well_formed is_email e2 p2 ->
  Db.find_user_by_email e1 (users w1) = None ->
  Db.find_user_by_email e2 (users w2) = Some a ->
  compare p2 (auth_password a) = false ->
  let unknown := signin_POST is_email compare (Json (Some e1) (Some p1)) c1 w1 in
  let wrong := signin_POST is_email compare (Json (Some e2) (Some p2)) c2 w2 in
  fst (fst unknown) = fst (fst wrong) /\
  fst (fst unknown) = mkResponse 400 (Message "Invalid credentials") /\
  snd (fst unknown) = c1 /\ snd (fst wrong) = c2 /\
  sessions (snd unknown) = sessions w1 /\ sessions (snd wrong) = sessions w2 /\
  issued (snd unknown) = issued w1 ++ [OpGetUser e1] /\
  issued (snd wrong) = issued w2 ++ [OpGetUser e2].
Proof.
  intros Hwf1 Hwf2 Hnone Hsome Hcmp unknown wrong. subst unknown wrong.
  rewrite (signin_POST_eq _ _ _ _ _ _ Hwf1), (signin_POST_eq _ _ _ _ _ _ Hwf2).
  rewrite !getAuthUser_eq, Hnone, Hsome.
  destruct (down_at 0 w1), (down_at 0 w2); rewrite ?Hcmp; simpl; repeat split.
Qed.

Lemma invalid_credentials_indistinguishable_witness :
  let is_email := fun e => String.eqb e "alice@example.com" || String.eqb e "mallory@example.com" in
  let w := Sample.empty_world Sample.t0 [] in
  fst (fst (signin_POST is_email String.eqb
              (Json (Some "mallory@example.com") (Some "password123")) Sample.no_cookies w))
  = fst (fst (signin_POST is_email String.eqb
              (Json (Some "alice@example.com") (Some "password123")) Sample.no_cookies w)).
Proof.
  intros is_email w.
  destruct (invalid_credentials_indistinguishable is_email String.eqb
              "mallory@example.com" "password123" Sample.no_cookies w
              "alice@example.com" "password123" Sample.no_cookies w Sample.alice)
    as (H & _).
  - split; [reflexivity | vm_compute; lia].
  - split; [reflexivity | vm_compute; lia].
  - reflexivity.
  - reflexivity.
  - reflexivity.
  - exact H.
Defined.

Lemma find_by_email_then_by_id e us a :
  List.NoDup (map auth_id us) ->
  Db.find_user_by_email e us = Some a ->
  Db.find_user_by_id (auth_id a) us = Some a.
Proof.
  unfold Db.find_user_by_email, Db.find_user_by_id.
  induction us as [|x us IH]; simpl; [discriminate |].
  intros Hnd Hfind. apply List.NoDup_cons_iff in Hnd as [Hx Hnd].
  destruct (String.eqb (auth_email x) e).
  - inversion Hfind; subst. now rewrite String.eqb_refl.
  - destruct (String.eqb (auth_id x) (auth_id a)) eqn:Hid.
    + exfalso. apply Hx. apply String.eqb_eq in Hid. rewrite Hid.
      apply List.in_map. now apply List.find_some in Hfind as [Hin _].
    + now apply IH.
Qed.

(** C7.  A sign-in at [t0] with a body the schema accepts, the e-mail of a
    user and a password that compares, the store answering both calls:
    the response is the success, the Session table holds for the freshly
    generated token a record of that user with [expiresAt = t0 +
    SESSION_LIFETIME] (30 days), the cookie [session] carries the token and
    that same expiry, and a validation of the token at any instant before
    [t0 + 15 days] ([t0 + 1 s] is one) that reaches the store returns that
    session and that user with the lookup as its only store call: no
    renewal, and the table as the sign-in left it. *)
Theorem login_then_immediate_validation
    (is_email : string -> bool) (compare : string -> string -> bool)
    e p c w a :
  well_formed is_email e p ->
  users_keyed w ->
  Db.find_user_by_email e (users w) = Some a ->
  compare p (auth_password a) = true ->
  down_at 0 w = false ->
  down_at 1 w = false ->
  let t0 := now w in
  let token := next_token (dispatch (OpGetUser e) w) in
  let s := mkSession (Codec.sessionIdOf token) (auth_id a) (t0 + SESSION_LIFETIME) in
  let '(response, c', w') := signin_POST is_email compare (Json (Some e) (Some p)) c w in
  SESSION_LIFETIME = 30 * 86400000 /\
  response = mkResponse 200 Success /\
  sessions w' !! Codec.sessionIdOf token = Some s /\
  outgoing c' !! "session"
  = Some (mkSetCookie token true (negb (localhost_http c)) Lax
                      (Some (t0 + SESSION_LIFETIME)) None "/") /\
  t0 + 1000 < t0 + SESSION_LIFETIME - RENEWAL_WINDOW /\
  forall t o,
    t < t0 + SESSION_LIFETIME - RENEWAL_WINDOW ->
    nth 0 o false = false ->
    let v := validateSessionToken token (set_outages o (set_clock t w')) in
    fst v = Ok (mkValidation (Some s) (Some (public a))) /\
    issued (snd v) = issued w' ++ [OpGet (Codec.sessionIdOf token)] /\
    sessions (snd v) = sessions w'.
Proof.
  intros Hwf Hkey Hfind Hcmp Hup0 Hup1 t0 token s.
  rewrite (signin_POST_eq _ _ _ _ _ _ Hwf), getAuthUser_eq, Hup0, Hfind, Hcmp.
  rewrite createSession_eq. cbv zeta.
  change (down_at 0 (take_entropy 32 (dispatch (OpGetUser e) w)))
    with (down_at 0 (dispatch (OpGetUser e) w)).
  rewrite down_at_dispatch, Hup1.
  change (next_token (dispatch (OpGetUser e) w)) with token.
  change (now (take_entropy 32 (dispatch (OpGetUser e) w))) with t0.
  fold s.
  split; [reflexivity |]. split; [reflexivity |].
  split; [simpl; apply lookup_insert_eq |].
  split; [unfold setSessionTokenCookie, cookies_set; simpl; now rewrite lookup_insert_eq |].
  split; [unfold SESSION_LIFETIME, RENEWAL_WINDOW, ms_15d; lia |].
  intros t o Ht Ho.
  set (w' := with_sessions _ _).
  rewrite (validate_outside_window (set_outages o (set_clock t w')) token (public a) s).
  - repeat split.
  - apply record_found_iff. split; [exact Ho |]. split.
    + simpl. apply lookup_insert_eq.
    + exists a. split; [| reflexivity]. simpl.
      now apply (find_by_email_then_by_id e).
  - unfold RENEWAL_WINDOW in Ht. simpl. lia.
Qed.

Lemma login_then_immediate_validation_witness :
  let w := Sample.empty_world Sample.t0 [] in
  let token := next_token w in
  let '(response, c', w') :=
    signin_POST (fun _ => true) String.eqb
      (Json (Some "alice@example.com") (Some "$2a$10$hash-of-alice")) Sample.no_cookies w in
  response = mkResponse 200 Success /\
  fst (validateSessionToken token (set_outages [] (set_clock (Sample.t0 + 1000) w')))
  = Ok (mkValidation
          (Some (mkSession (Codec.sessionIdOf token) (auth_id Sample.alice)
                           (Sample.t0 + SESSION_LIFETIME)))
          (Some (public Sample.alice))).
Proof.
  intros w token.
  pose proof (login_then_immediate_validation (fun _ => true) String.eqb
                "alice@example.com" "$2a$10$hash-of-alice" Sample.no_cookies w Sample.alice) as H.
  cbv zeta in H.
  destruct (signin_POST _ _ _ _ w) as [[response c'] w'].
  destruct H as (_ & Hresp & _ & _ & _ & Hval).
  - split; [reflexivity | vm_compute; lia].
  - unfold users_keyed. simpl. constructor; [intros [] | constructor].
  - reflexivity.
  - reflexivity.
  - reflexivity.
  - reflexivity.
  - split; [exact Hresp |].
    apply (Hval (Sample.t0 + 1000) []); [vm_compute; reflexivity | reflexivity].
Defined.

(** ** What is persisted *)

(** C8.  [createSession] sends the store one record and nothing else: its
    key is the hex-encoded SHA-256 of the token, 64 characters long, its
    other fields are the user id handed over and the expiry.  For a token
    that does not have the length of a digest (a generated token has 52
    characters) the key differs from the token, and with a user id that
    does not have the token's length (a user id is a uuid, 36 characters)
    no field of the record is the raw token.  Every record of the Session
    table afterwards is that one or was there before. *)
Theorem raw_token_never_persisted token uid w :
  String.length token <> 64%nat ->
  String.length uid <> String.length token ->
  let s := mkSession (Codec.encodeHexLowerCase (Codec.sha256 (Codec.TextEncoder_encode token)))
                     uid (now w + SESSION_LIFETIME) in
  let w' := snd (createSession token uid w) in
  issued w' = issued w ++ [OpPut s] /\
  String.length (session_id s) = 64%nat /\
  session_id s <> token /\
  ~ holds_token token s /\
  (forall k r, sessions w' !! k = Some r ->
     (k = session_id s /\ r = s) \/ sessions w !! k = Some r) /\
  (fst (createSession token uid w) = Ok s \/
   fst (createSession token uid w) = Err StoreUnavailable /\ sessions w' = sessions w).
Proof.
  intros Htok Huid s w'. subst w'.
  change (Codec.encodeHexLowerCase _) with (Codec.sessionIdOf token) in s.
  rewrite createSession_eq. cbv zeta. fold s.
  assert (session_id s <> token) as Hkey by (apply sessionIdOf_differs, Htok).
  split; [now destruct (down_at 0 w) |].
  split; [apply sessionIdOf_length |].
  split; [exact Hkey |].
  split.
  { intros [Hid|Hu]; [now apply Hkey |]. apply Huid. simpl in Hu. now rewrite Hu. }
  destruct (down_at 0 w); simpl.
  - split; [now right | right; now split].
  - split; [| now left].
    intros k r Hr. destruct (decide (Codec.sessionIdOf token = k)) as [<-|Hne].
    + rewrite lookup_insert_eq in Hr. left. split; [reflexivity | congruence].
    + rewrite lookup_insert_ne in Hr by exact Hne. now right.
Qed.

Lemma raw_token_never_persisted_witness :
  let w := Sample.empty_world Sample.t0 [] in
  let w' := snd (createSession Sample.token (auth_id Sample.alice) w) in
  sessions w' !! "9b78014745005569606d970db26c0e97b822a71fcae368b98320c2a299c41014"
  = Some (mkSession "9b78014745005569606d970db26c0e97b822a71fcae368b98320c2a299c41014"
                    (auth_id Sample.alice) (Sample.t0 + SESSION_LIFETIME)) /\
  issued w' = [OpPut (mkSession "9b78014745005569606d970db26c0e97b822a71fcae368b98320c2a299c41014"
                                (auth_id Sample.alice) (Sample.t0 + SESSION_LIFETIME))].
Proof.
  intros w w'.
  destruct (raw_token_never_persisted Sample.token (auth_id Sample.alice) w)
    as (Hissued & _).
  - vm_compute. discriminate.
  - vm_compute. discriminate.
  - split; [vm_compute; reflexivity |].
    subst w'. rewrite Hissued. vm_compute. reflexivity.
Defined.

(** * Further properties of the server *)

(** ** [validateSessionToken]: what a result tells *)

(** A validation that returns a session found its record, unexpired, and
    returns the identity joined to it. *)
Lemma validate_ok_session token w s ou w1 :
  validateSessionToken token w = (Ok (mkValidation (Some s) ou), w1) ->
  exists u, ou = Some u /\ record_found w token u s /\ now w < expiresAt s.
Proof.
  intros Hv.
  destruct (fst (Db.getFullSession (Codec.sessionIdOf token) w)) as [[u0 s0]|e] eqn:Hget.
  - rewrite (validate_found _ _ _ _ Hget) in Hv. cbv zeta in Hv.
    destruct (now w >=? expiresAt s0) eqn:Hexp.
    + destruct (Db.deleteSession _ _) as [[[]|e] w2]; discriminate Hv.
    + rewrite Z.geb_leb in Hexp. apply Z.leb_gt in Hexp.
      destruct (now w >=? expiresAt s0 - ms_15d).
      * destruct (Db.extendSession _ _) as [[[]|e] w2]; [| discriminate Hv].
        inversion Hv; subst. eauto.
      * inversion Hv; subst. eauto.
  - rewrite (validate_not_found _ _ _ Hget) in Hv. discriminate Hv.
Qed.

(** A live record and an answering store give the identity. *)
Lemma validate_live w token u s :
  record_found w token u s ->
  now w < expiresAt s ->
  down_at 1 w = false ->
  fst (validateSessionToken token w) = Ok (mkValidation (Some s) (Some u)).
Proof.
  intros Hf Hlive Hup. rewrite (validate_found _ _ _ _ Hf). cbv zeta.
  rewrite (geb_false _ _ Hlive).
  destruct (now w >=? expiresAt s - ms_15d); [| reflexivity].
  now rewrite extendSession_eq, down_at_dispatch, Hup.
Qed.

(** X1.  Whatever the request and the world, [handle] hands [resolve] an
    event whose locals are either both null, or the session stored for the
    presented token, not yet expired, with the identity joined to it; in
    the second case the cookies are the request's own, in the first they
    are the request's own or have the session cookie cleared. *)
Theorem handle_authenticates_only_live_sessions {R}
    (resolve : RequestEvent -> World -> R * World) event w :
  exists ev' w',
    handle resolve event w = resolve ev' w' /\
    ((locals ev' = mkLocals None None /\
      (cookies ev' = cookies event \/
       cookies ev' = deleteSessionTokenCookie (cookies event)))
     \/
     (exists token u s,
        getSessionCookie event = Some token /\
        record_found w token u s /\
        now w < expiresAt s /\
        locals ev' = mkLocals (Some u) (Some s) /\
        cookies ev' = cookies event)).
Proof.
  unfold handle.
  destruct (getSessionCookie event) as [token|] eqn:Hc;
    [| eexists _, _; split; [reflexivity | left; split; [reflexivity | now left]]].
  destruct (falsy (Some token));
    [eexists _, _; split; [reflexivity | left; split; [reflexivity | now left]] |].
  destruct (validateSessionToken token w) as [[[[s|] ou]|e] w1] eqn:Hv.
  - apply validate_ok_session in Hv as (u & -> & Hf & Hlive).
    eexists _, _. split; [reflexivity |]. right. exists token, u, s. now repeat split.
  - eexists _, _. split; [reflexivity |]. left. split; [reflexivity | now right].
  - eexists _, _. split; [reflexivity |]. left. split; [reflexivity | now right].
Qed.

Lemma handle_token {R} (resolve : RequestEvent -> World -> R * World) event w token :
  getSessionCookie event = Some token ->
  token <> "" ->
  handle resolve event w =
  match validateSessionToken token w with
  | (Ok (mkValidation (Some s) ou), w1) =>
      resolve (mkEvent (cookies event) (mkLocals ou (Some s))) w1
  | (_, w1) =>
      resolve (mkEvent (deleteSessionTokenCookie (cookies event)) (mkLocals None None)) w1
  end.
Proof.
  intros Hc Hne. unfold handle. rewrite Hc. simpl.
  apply String.eqb_neq in Hne. rewrite Hne.
  now destruct (validateSessionToken token w) as [[[[s|] ou]|e] w1].
Qed.

(** X2.  [GET /api/user] behind [handle], for a request that presents a
    token while the store answers a renewal should one be due: the answer
    is 200 exactly when the token's record is found and not expired, and
    then its body is the identity joined to that record; in every other
    case it is 401 with a null body. *)
Theorem user_GET_200_iff_live_session event w token :
  getSessionCookie event = Some token ->
  token <> "" ->
  down_at 1 w = false ->
  let response := fst (fst (serve_user_GET event w)) in
  (user_status response = 200 <->
   exists u s, record_found w token u s /\ now w < expiresAt s) /\
  (forall u s, record_found w token u s -> now w < expiresAt s ->
     response = mkUserResponse 200 (Some u)) /\
  (user_status response <> 200 -> response = mkUserResponse 401 None).
Proof.
  intros Hc Hne Hup response. subst response. unfold serve_user_GET.
  rewrite (handle_token _ _ _ _ Hc Hne).
  assert (forall u s, record_found w token u s -> now w < expiresAt s ->
            fst (validateSessionToken token w) = Ok (mkValidation (Some s) (Some u)))
    as Hlive by (intros; now apply validate_live).
  destruct (validateSessionToken token w) as [[[[s|] ou]|e] w1] eqn:Hv.
  - apply validate_ok_session in Hv as (u & -> & Hf & Hlt). simpl.
    split; [split; [eauto | reflexivity] |].
    split; [| intros H; now contradiction H].
    intros u' s' Hf' _. unfold record_found in *. rewrite Hf in Hf'. now inversion Hf'.
  - simpl. split; [split; [discriminate |] |].
    + intros (u & s & Hf & Hlt). specialize (Hlive _ _ Hf Hlt). discriminate Hlive.
    + split; [| reflexivity].
      intros u s Hf Hlt. specialize (Hlive _ _ Hf Hlt). discriminate Hlive.
  - simpl. split; [split; [discriminate |] |].
    + intros (u & s & Hf & Hlt). specialize (Hlive _ _ Hf Hlt). discriminate Hlive.
    + split; [| reflexivity].
      intros u s Hf Hlt. specialize (Hlive _ _ Hf Hlt). discriminate Hlive.
Qed.

Lemma user_GET_200_iff_live_session_witness :
  let event := request_with Sample.no_cookies Sample.token in
  let w := Sample.world (Sample.t0 + 30 * Sample.day) Sample.t0 [] in
  fst (fst (serve_user_GET event w)) = mkUserResponse 200 (Some (public Sample.alice)).
Proof.
  intros event w.
  destruct (user_GET_200_iff_live_session event w Sample.token) as (_ & H & _).
  - reflexivity.
  - discriminate.
  - reflexivity.
  - apply (H (public Sample.alice)
             (mkSession (Codec.sessionIdOf Sample.token) (auth_id Sample.alice)
                        (Sample.t0 + 30 * Sample.day))).
    + vm_compute. reflexivity.
    + vm_compute. reflexivity.
Defined.

(** ** Sign-out and what follows it *)

Lemma getSessionCookie_request_with cks token :
  getSessionCookie (request_with cks token) = Some token.
Proof. unfold getSessionCookie, cookies_get, request_with; simpl. apply lookup_insert_eq. Qed.

(** Without a record under the token's identifier the validation ends in
    the lookup's error, having issued the lookup only. *)
Lemma validate_unknown w token :
  sessions w !! Codec.sessionIdOf token = None ->
  exists e,
    validateSessionToken token w = (Err e, dispatch (OpGet (Codec.sessionIdOf token)) w).
Proof.
  intros Hnone.
  assert (exists e, fst (Db.getFullSession (Codec.sessionIdOf token) w) = Err e) as [e He].
  { unfold Db.getFullSession, Db.store_call.
    destruct (backend_down w); simpl; [eauto |]. rewrite Hnone. eauto. }
  exists e. now apply validate_not_found.
Qed.

(** X3.  A request whose token has no record is served as anonymous with
    the session cookie cleared; the lookup is the only store call and both
    tables are as before, whether the store answered it or not. *)
Theorem handle_clears_unknown_token {R}
    (resolve : RequestEvent -> World -> R * World) event w token :
  getSessionCookie event = Some token ->
  token <> "" ->
  sessions w !! Codec.sessionIdOf token = None ->
  handle resolve event w
  = resolve (mkEvent (deleteSessionTokenCookie (cookies event)) (mkLocals None None))
            (dispatch (OpGet (Codec.sessionIdOf token)) w) /\
  sessions (dispatch (OpGet (Codec.sessionIdOf token)) w) = sessions w /\
  users (dispatch (OpGet (Codec.sessionIdOf token)) w) = users w /\
  issued (dispatch (OpGet (Codec.sessionIdOf token)) w)
  = issued w ++ [OpGet (Codec.sessionIdOf token)].
Proof.
  intros Hc Hne Hnone. rewrite (handle_token _ _ _ _ Hc Hne).
  destruct (validate_unknown _ _ Hnone) as [e ->]. repeat split.
Qed.

Lemma handle_clears_unknown_token_witness :
  let event := request_with Sample.no_cookies Sample.token in
  let w := Sample.empty_world Sample.t0 [] in
  fst (handle (fun ev w' => (ev, w')) event w)
  = mkEvent (deleteSessionTokenCookie (cookies event)) (mkLocals None None).
Proof.
  intros event w.
  destruct (handle_clears_unknown_token (fun ev w' => (ev, w')) event w Sample.token)
    as (H & _).
  - reflexivity.
  - discriminate.
  - reflexivity.
  - rewrite H. reflexivity.
Defined.

(** X4.  Sign-out always answers success and clears the session cookie,
    and never touches the User table.  Without a session in the locals the
    world is untouched.  With one, the store answering, its record is
    removed and no other; the store being down, the failure is dropped:
    the answer is the same and the Session table still holds the record. *)
Theorem signout_always_succeeds locals cks w :
  let '(response, cks', w') := signout_POST locals cks w in
  response = mkResponse 200 Success /\
  cks' = deleteSessionTokenCookie cks /\
  users w' = users w /\
  match locals_session locals with
  | None => w' = w
  | Some s =>
      issued w' = issued w ++ [OpDelete (session_id s)] /\
      sessions w' = if down_at 0 w then sessions w
                    else delete (session_id s) (sessions w)
  end.
Proof.
  unfold signout_POST, invalidateSession.
  destruct (locals_session locals) as [s|]; [| now repeat split].
  rewrite deleteSession_eq. now destruct (down_at 0 w).
Qed.

(** X5.  After a sign-out that reached the store, a request that still
    presents the old token, at any later instant and whatever the store's
    availability, is answered 401 by [GET /api/user] and has its session
    cookie cleared. *)
Theorem signed_out_token_is_rejected loc cks w token s t o cks2 :
  locals_session loc = Some s ->
  session_id s = Codec.sessionIdOf token ->
  token <> "" ->
  down_at 0 w = false ->
  let w1 := snd (signout_POST loc cks w) in
  let served := serve_user_GET (request_with cks2 token) (set_outages o (set_clock t w1)) in
  fst (fst served) = mkUserResponse 401 None /\
  outgoing (snd (fst served)) !! "session"
  = outgoing (deleteSessionTokenCookie cks2) !! "session" /\
  sessions (snd served) !! Codec.sessionIdOf token = None.
Proof.
  intros Hs Hid Hne Hup w1 served. subst served. unfold serve_user_GET.
  assert (sessions (set_outages o (set_clock t w1)) !! Codec.sessionIdOf token = None)
    as Hgone.
  { subst w1. unfold signout_POST. rewrite Hs. unfold invalidateSession.
    cbn [snd]. rewrite deleteSession_eq, Hup, Hid. simpl. apply lookup_delete_eq. }
  rewrite (handle_token _ _ _ _ (getSessionCookie_request_with _ _) Hne).
  destruct (validate_unknown _ _ Hgone) as [e ->].
  cbn [fst snd locals cookies]. repeat split.
  rewrite sessions_dispatch. exact Hgone.
Qed.

Lemma signed_out_token_is_rejected_witness :
  let s := mkSession (Codec.sessionIdOf Sample.token) (auth_id Sample.alice)
                     (Sample.t0 + 30 * Sample.day) in
  let w := Sample.world (Sample.t0 + 30 * Sample.day) Sample.t0 [] in
  let w1 := snd (signout_POST (mkLocals (Some (public Sample.alice)) (Some s))
                              Sample.no_cookies w) in
  fst (fst (serve_user_GET (request_with Sample.no_cookies Sample.token)
              (set_outages [] (set_clock (Sample.t0 + 1000) w1))))
  = mkUserResponse 401 None.
Proof.
  intros s w w1.
  destruct (signed_out_token_is_rejected (mkLocals (Some (public Sample.alice)) (Some s))
              Sample.no_cookies w Sample.token s (Sample.t0 + 1000) [] Sample.no_cookies)
    as (H & _).
  - reflexivity.
  - reflexivity.
  - discriminate.
  - reflexivity.
  - exact H.
Defined.

(** X6.  A sign-out while the store is down still answers success, but the
    session stays valid: a request that presents the old token before its
    renewal window, the store answering again, is authenticated and
    [GET /api/user] answers 200 with the identity. *)
Theorem signout_during_outage_keeps_session loc cks w token u s t o cks2 :
  locals_session loc = Some s ->
  sessions w !! Codec.sessionIdOf token = Some s ->
  (exists a, Db.find_user_by_id (userId s) (users w) = Some a /\ u = public a) ->
  token <> "" ->
  down_at 0 w = true ->
  t < expiresAt s - RENEWAL_WINDOW ->
  nth 0 o false = false ->
  let '(response, _, w1) := signout_POST loc cks w in
  response = mkResponse 200 Success /\
  fst (fst (serve_user_GET (request_with cks2 token) (set_outages o (set_clock t w1))))
  = mkUserResponse 200 (Some u).
Proof.
  intros Hs Hrec Hu Hne Hdown Ht Ho. unfold signout_POST. rewrite Hs.
  split; [reflexivity |].
  unfold invalidateSession. rewrite deleteSession_eq, Hdown. cbn [snd].
  unfold serve_user_GET.
  rewrite (handle_token _ _ _ _ (getSessionCookie_request_with _ _) Hne).
  rewrite (validate_outside_window _ token u s).
  - reflexivity.
  - apply record_found_iff. repeat split; assumption.
  - exact Ht.
Qed.

Lemma signout_during_outage_keeps_session_witness :
  let s := mkSession (Codec.sessionIdOf Sample.token) (auth_id Sample.alice)
                     (Sample.t0 + 30 * Sample.day) in
  let w := Sample.world (Sample.t0 + 30 * Sample.day) Sample.t0 [true] in
  fst (fst (serve_user_GET (request_with Sample.no_cookies Sample.token)
              (set_outages [] (set_clock (Sample.t0 + 1000)
                 (snd (signout_POST (mkLocals (Some (public Sample.alice)) (Some s))
                                    Sample.no_cookies w))))))
  = mkUserResponse 200 (Some (public Sample.alice)).
Proof.
  intros s w.
  pose proof (signout_during_outage_keeps_session
                (mkLocals (Some (public Sample.alice)) (Some s)) Sample.no_cookies w
                Sample.token (public Sample.alice) s (Sample.t0 + 1000) []
                Sample.no_cookies) as H.
  destruct (signout_POST _ Sample.no_cookies w) as [[response c'] w1].
  apply H.
  - reflexivity.
  - vm_compute. reflexivity.
  - exists Sample.alice. split; reflexivity.
  - discriminate.
  - reflexivity.
  - vm_compute. reflexivity.
  - reflexivity.
Defined.

(** ** Sign-in and sign-up: every outcome *)

Section SigninFacts.

Variable is_email : string -> bool.
Variable compare : string -> string -> bool.

Lemma schema_parse_Some request e p :
  schema_parse is_email request = Some (e, p) ->
  request = Json (Some e) (Some p) /\ well_formed is_email e p.
Proof.
  unfold schema_parse. destruct request as [|[e'|] [p'|]]; try discriminate.
  destruct (is_email e') eqn:He; [| discriminate].
  destruct (8 <=? Z.of_nat (String.length p')) eqn:Hp; [| discriminate].
  apply Z.leb_le in Hp. intros [= <- <-]. repeat split; [exact He | lia].
Qed.

(** X7.  Every sign-in ends in one of two ways.  Either it answers 200:
    then the body passed the schema, the e-mail is a user's, the password
    compared with that user's hash, the store answered twice, the Session
    table holds for the new token a record of that user expiring 30 days
    from now, and the session cookie carries that token and expiry.  Or it
    answers 400 or 500: then the cookies and the Session table are as they
    were.  The User table is never changed. *)
Theorem signin_outcomes request cks w :
  let '(response, cks', w') := signin_POST is_email compare request cks w in
  users w' = users w /\
  ((response = mkResponse 200 Success /\
    exists e p a,
      request = Json (Some e) (Some p) /\
      well_formed is_email e p /\
      Db.find_user_by_email e (users w) = Some a /\
      compare p (auth_password a) = true /\
      down_at 0 w = false /\ down_at 1 w = false /\
      sessions w'
      = <[Codec.sessionIdOf (next_token w) :=
            mkSession (Codec.sessionIdOf (next_token w)) (auth_id a)
                      (now w + SESSION_LIFETIME)]> (sessions w) /\
      cks' = setSessionTokenCookie cks (next_token w) (now w + SESSION_LIFETIME))
   \/
   ((status response = 400 \/ status response = 500) /\
    cks' = cks /\ sessions w' = sessions w)).
Proof.
  destruct (schema_parse is_email request) as [[e p]|] eqn:Hparse.
  - apply schema_parse_Some in Hparse as [-> Hwf].
    rewrite (signin_POST_eq _ _ _ _ _ _ Hwf), getAuthUser_eq.
    destruct (down_at 0 w) eqn:Hup0; [split; [reflexivity | right; now repeat split; left] |].
    destruct (Db.find_user_by_email e (users w)) as [a|] eqn:Hfind;
      [| split; [reflexivity | right; now repeat split; left]].
    destruct (compare p (auth_password a)) eqn:Hcmp;
      [| split; [reflexivity | right; now repeat split; left]].
    rewrite createSession_eq. cbv zeta.
    change (down_at 0 (take_entropy 32 (dispatch (OpGetUser e) w)))
      with (down_at 0 (dispatch (OpGetUser e) w)).
    rewrite down_at_dispatch.
    destruct (down_at 1 w) eqn:Hup1; [split; [reflexivity | right; now repeat split; right] |].
    split; [reflexivity |]. left. split; [reflexivity |].
    exists e, p, a. destruct Hwf as [He Hp]. repeat split; assumption.
  - unfold signin_POST. rewrite Hparse.
    destruct request; (split; [reflexivity | right; repeat split; auto]).
Qed.

(** X8.  The store failing between the credential lookup and the insert of
    the session: the sign-in answers 500 'Failed to create session', sets
    no cookie and stores no session, although the credentials were right;
    the token drawn for it (32 bytes of the random source) is lost. *)
Theorem signin_put_failure e p cks w a :
  well_formed is_email e p ->
  Db.find_user_by_email e (users w) = Some a ->
  compare p (auth_password a) = true ->
  down_at 0 w = false ->
  down_at 1 w = true ->
  let '(response, cks', w') := signin_POST is_email compare (Json (Some e) (Some p)) cks w in
  response = mkResponse 500 (Message "Failed to create session") /\
  cks' = cks /\
  sessions w' = sessions w /\
  drawn w' = (drawn w + 32)%nat /\
  issued w' = issued w ++
    [OpGetUser e;
     OpPut (mkSession (Codec.sessionIdOf (next_token w)) (auth_id a)
                      (now w + SESSION_LIFETIME))].
Proof.
  intros Hwf Hfind Hcmp Hup0 Hdown1.
  rewrite (signin_POST_eq _ _ _ _ _ _ Hwf), getAuthUser_eq, Hup0, Hfind, Hcmp.
  rewrite createSession_eq. cbv zeta.
  change (down_at 0 (take_entropy 32 (dispatch (OpGetUser e) w)))
    with (down_at 0 (dispatch (OpGetUser e) w)).
  rewrite down_at_dispatch, Hdown1. repeat split.
  simpl. now rewrite <- app_assoc.
Qed.

End SigninFacts.

Lemma signin_put_failure_witness :
  let w := Sample.empty_world Sample.t0 [false; true] in
  let '(response, cks', w') :=
    signin_POST (fun _ => true) String.eqb
      (Json (Some "alice@example.com") (Some "$2a$10$hash-of-alice")) Sample.no_cookies w in
  response = mkResponse 500 (Message "Failed to create session") /\ cks' = Sample.no_cookies.
Proof.
  intros w.
  pose proof (signin_put_failure (fun _ => true) String.eqb
                "alice@example.com" "$2a$10$hash-of-alice" Sample.no_cookies w Sample.alice) as H.
  destruct (signin_POST _ _ _ _ w) as [[response c'] w'].
  destruct H as (Hr & Hc & _).
  - split; [reflexivity | vm_compute; lia].
  - reflexivity.
  - reflexivity.
  - reflexivity.
  - reflexivity.
  - split; [exact Hr | exact Hc].
Defined.

Section SignupFacts.

Variable is_email : string -> bool.
Variable createAuthUser : string -> string -> ResultAsync AuthUser.


End SignupFacts.

(** ** [validateSessionToken]: footprint and repeated use *)

(** X10.  A validation issues the lookup and at most one more store call,
    never changes the User table and never changes, adds or removes the
    record of any other token. *)
Theorem validate_touches_one_record token w id :
  id <> Codec.sessionIdOf token ->
  let w' := snd (validateSessionToken token w) in
  sessions w' !! id = sessions w !! id /\
  users w' = users w /\
  exists ops, issued w' = issued w ++ OpGet (Codec.sessionIdOf token) :: ops /\
              (length ops <= 1)%nat.
Proof.
  intros Hne w'. subst w'.
  destruct (fst (Db.getFullSession (Codec.sessionIdOf token) w)) as [[u s]|e] eqn:Hget.
  - rewrite (validate_found _ _ _ _ Hget). cbv zeta.
    destruct (now w >=? expiresAt s).
    + rewrite deleteSession_eq. destruct (down_at 0 _); simpl.
      * repeat split. exists [OpDelete (Codec.sessionIdOf token)].
        split; [now rewrite <- app_assoc | simpl; lia].
      * split; [now rewrite lookup_delete_ne |]. split; [reflexivity |].
        exists [OpDelete (Codec.sessionIdOf token)].
        split; [now rewrite <- app_assoc | simpl; lia].
    + destruct (now w >=? expiresAt s - ms_15d).
      * rewrite extendSession_eq. cbv zeta. destruct (down_at 0 _); simpl.
        -- repeat split. eexists [_]. split; [now rewrite <- app_assoc | simpl; lia].
        -- split; [now rewrite lookup_alter_ne |]. split; [reflexivity |].
           eexists [_]. split; [now rewrite <- app_assoc | simpl; lia].
      * simpl. repeat split. exists []. split; [reflexivity | simpl; lia].
  - rewrite (validate_not_found _ _ _ Hget). simpl. repeat split.
    exists []. split; [reflexivity | simpl; lia].
Qed.

Lemma validate_touches_one_record_witness :
  let w := Sample.world (Sample.t0 - 10 * Sample.day) Sample.t0 [] in
  sessions (snd (validateSessionToken "another-token" w)) !! Codec.sessionIdOf Sample.token
  = sessions w !! Codec.sessionIdOf Sample.token.
Proof.
  intros w.
  destruct (validate_touches_one_record "another-token" w (Codec.sessionIdOf Sample.token))
    as (H & _).
  - vm_compute. discriminate.
  - exact H.
Defined.

(** X11.  Once a validation has renewed a session at [now], a further
    validation of the same token at any instant before [now + 15 days]
    that reaches the store returns the identity with the renewed record and
    issues nothing but its lookup: no second renewal. *)
Theorem renewed_session_not_renewed_again w token u s t o :
  record_found w token u s ->
  expiresAt s - RENEWAL_WINDOW <= now w < expiresAt s ->
  down_at 1 w = false ->
  t < now w + SESSION_LIFETIME - RENEWAL_WINDOW ->
  nth 0 o false = false ->
  let w1 := snd (validateSessionToken token w) in
  let again := validateSessionToken token (set_outages o (set_clock t w1)) in
  fst again
  = Ok (mkValidation
          (Some (mkSession (session_id s) (userId s) (now w + SESSION_LIFETIME)))
          (Some u)) /\
  issued (snd again) = issued w1 ++ [OpGet (Codec.sessionIdOf token)] /\
  sessions (snd again) = sessions w1.
Proof.
  intros Hf [Hlo Hhi] Hup Ht Ho w1 again. subst again. unfold RENEWAL_WINDOW in *.
  assert (sessions w1 !! Codec.sessionIdOf token
          = Some (mkSession (session_id s) (userId s) (now w + SESSION_LIFETIME))
          /\ users w1 = users w) as [Hs1 Hu1].
  { subst w1. rewrite (validate_found _ _ _ _ Hf). cbv zeta.
    rewrite (geb_false _ _ Hhi), (geb_true (now w) (expiresAt s - ms_15d)) by lia.
    rewrite extendSession_eq, down_at_dispatch, Hup. cbv zeta. simpl.
    apply record_found_iff in Hf as (_ & Hs & _).
    split; [| reflexivity]. now rewrite lookup_alter_eq, Hs. }
  rewrite (validate_outside_window (set_outages o (set_clock t w1)) token u
             (mkSession (session_id s) (userId s) (now w + SESSION_LIFETIME))).
  - repeat split.
  - apply record_found_iff. split; [exact Ho |]. split; [exact Hs1 |].
    apply record_found_iff in Hf as (_ & _ & a & Ha & ->).
    exists a. split; [| reflexivity]. simpl. now rewrite Hu1.
  - simpl. lia.
Qed.

Lemma renewed_session_not_renewed_again_witness :
  let w := Sample.world (Sample.t0 + 10 * Sample.day) Sample.t0 [] in
  let w1 := snd (validateSessionToken Sample.token w) in
  issued (snd (validateSessionToken Sample.token
                 (set_outages [] (set_clock (Sample.t0 + 14 * Sample.day) w1))))
  = issued w1 ++ [OpGet (Codec.sessionIdOf Sample.token)].
Proof.
  intros w w1.
  destruct (renewed_session_not_renewed_again w Sample.token (public Sample.alice)
              (mkSession (Codec.sessionIdOf Sample.token) (auth_id Sample.alice)
                         (Sample.t0 + 10 * Sample.day))
              (Sample.t0 + 14 * Sample.day) []) as (_ & H & _).
  - vm_compute. reflexivity.
  - vm_compute. split; [discriminate | reflexivity].
  - reflexivity.
  - vm_compute. reflexivity.
  - reflexivity.
  - exact H.
Defined.

(** X12.  Once a validation has found a session expired and deleted it, a
    further validation of the same token, at any instant, ends in an error
    of the lookup and issues nothing but that lookup: where the first
    returned Anonymous the later ones fail, and the delete is not issued
    again. *)
Theorem expired_token_fails_afterwards w token u s t o :
  record_found w token u s ->
  now w >= expiresAt s ->
  down_at 1 w = false ->
  let w1 := snd (validateSessionToken token w) in
  let again := validateSessionToken token (set_outages o (set_clock t w1)) in
  fst (validateSessionToken token w) = Ok Anonymous /\
  fst again = Err (if nth 0 o false then StoreUnavailable else NotFound) /\
  issued (snd again) = issued w1 ++ [OpGet (Codec.sessionIdOf token)] /\
  sessions (snd again) = sessions w1.
Proof.
  intros Hf Hnow Hup w1 again. subst again.
  assert (fst (validateSessionToken token w) = Ok Anonymous /\
          sessions w1 !! Codec.sessionIdOf token = None) as [Hfirst Hgone].
  { subst w1. rewrite (validate_found _ _ _ _ Hf). cbv zeta.
    rewrite (geb_true _ _ Hnow), deleteSession_eq, down_at_dispatch, Hup. simpl.
    split; [reflexivity | apply lookup_delete_eq]. }
  split; [exact Hfirst |].
  rewrite (validate_not_found (set_outages o (set_clock t w1)) token
             (if nth 0 o false then StoreUnavailable else NotFound)).
  - repeat split.
  - unfold Db.getFullSession, Db.store_call, backend_down, down_at. simpl.
    destruct (nth 0 o false); simpl; [reflexivity |]. now rewrite Hgone.
Qed.

Lemma expired_token_fails_afterwards_witness :
  let w := Sample.world Sample.t0 (Sample.t0 + Sample.day) [] in
  let w1 := snd (validateSessionToken Sample.token w) in
  fst (validateSessionToken Sample.token (set_outages [] (set_clock (Sample.t0 + Sample.day) w1)))
  = Err NotFound.
Proof.
  intros w w1.
  destruct (expired_token_fails_afterwards w Sample.token (public Sample.alice)
              (mkSession (Codec.sessionIdOf Sample.token) (auth_id Sample.alice) Sample.t0)
              (Sample.t0 + Sample.day) []) as (_ & H & _).
  - vm_compute. reflexivity.
  - vm_compute. discriminate.
  - reflexivity.
  - exact H.
Defined.

(** ** [generateSessionToken]: the token and the random bytes *)

Section TokenFacts.
Import Codec.

Lemma quintet_char_safe b4 b3 b2 b1 b0 :
  base32_char (alphabet_at base32_alphabet (quintet b4 b3 b2 b1 b0)) = true.
Proof. destruct b4, b3, b2, b1, b0; reflexivity. Qed.

Lemma quintet_char_bits b4 b3 b2 b1 b0 :
  base32_bits (alphabet_at base32_alphabet (quintet b4 b3 b2 b1 b0)) = [b4; b3; b2; b1; b0].
Proof. destruct b4, b3, b2, b1, b0; reflexivity. Qed.

Lemma base32_chars_safe_upto n : forall bits,
  (length bits <= n)%nat -> string_forall base32_char (base32_chars bits) = true.
Proof.
  induction n as [|n IH]; intros bits Hlen.
  - destruct bits; [reflexivity | simpl in Hlen; lia].
  - destruct bits as [|b4 [|b3 [|b2 [|b1 [|b0 r]]]]];
      cbn [base32_chars string_forall]; rewrite ?quintet_char_safe; try reflexivity.
    apply IH. simpl in Hlen. lia.
Qed.

(** Bit lists of one length with the same characters are the same. *)
Lemma base32_chars_inj_upto n : forall l1 l2,
  (length l1 <= n)%nat -> length l2 = length l1 ->
  base32_chars l1 = base32_chars l2 -> l1 = l2.
Proof.
  induction n as [|n IH]; intros l1 l2 Hn Hlen Heq.
  - destruct l1; [| simpl in Hn; lia]. now destruct l2.
  - destruct l1 as [|a4 [|a3 [|a2 [|a1 [|a0 r1]]]]];
    destruct l2 as [|b4 [|b3 [|b2 [|b1 [|b0 r2]]]]];
      simpl in Hlen; try discriminate Hlen; try reflexivity;
      cbn [base32_chars] in Heq; injection Heq; clear Heq; intros;
      match goal with
      | Hc : alphabet_at _ _ = alphabet_at _ _ |- _ =>
          apply (f_equal base32_bits) in Hc; rewrite !quintet_char_bits in Hc;
          injection Hc; clear Hc; intros; subst
      end; try reflexivity.
    do 5 f_equal.
    apply IH; [simpl in Hn; lia | lia | assumption].
Qed.

Lemma byte_bits_inj b1 b2 :
  is_byte b1 -> is_byte b2 -> byte_bits b1 = byte_bits b2 -> b1 = b2.
Proof.
  unfold is_byte, byte_bits. intros H1 H2 Heq.
  injection Heq as E7 E6 E5 E4 E3 E2 E1 E0.
  apply Z.bits_inj'. intros n Hn.
  destruct (Z_lt_le_dec n 8) as [Hlt|Hge].
  - assert (exists k : nat, (k < 8)%nat /\ n = Z.of_nat k) as (k & Hk & ->)
      by (exists (Z.to_nat n); lia).
    do 8 (destruct k as [|k]; [assumption |]). lia.
  - rewrite <- (Z.mod_small b1 (2 ^ 8)), <- (Z.mod_small b2 (2 ^ 8)) by (simpl; lia).
    now rewrite !Z.mod_pow2_bits_high by lia.
Qed.

Lemma byte_bits_length bs : length (flat_map byte_bits bs) = (8 * length bs)%nat.
Proof. induction bs as [|b r IH]; [reflexivity |]. simpl. rewrite IH. lia. Qed.

Lemma flat_map_byte_bits_inj : forall bs1 bs2,
  Forall is_byte bs1 -> Forall is_byte bs2 ->
  flat_map byte_bits bs1 = flat_map byte_bits bs2 -> bs1 = bs2.
Proof.
  induction bs1 as [|b1 r1 IH]; intros [|b2 r2] F1 F2 Heq;
    try reflexivity; try discriminate Heq.
  apply Forall_cons in F1 as [Hb1 F1]. apply Forall_cons in F2 as [Hb2 F2].
  change (byte_bits b1 ++ flat_map byte_bits r1 = byte_bits b2 ++ flat_map byte_bits r2)
    in Heq.
  apply app_inj_1 in Heq as [Hb Hr]; [| reflexivity].
  f_equal.
  - now apply byte_bits_inj.
  - now apply IH.
Qed.

(** Equally many bytes with the same encoding are the same bytes. *)
Lemma encodeBase32_inj bs1 bs2 :
  Forall is_byte bs1 -> Forall is_byte bs2 -> length bs1 = length bs2 ->
  encodeBase32LowerCaseNoPadding bs1 = encodeBase32LowerCaseNoPadding bs2 ->
  bs1 = bs2.
Proof.
  intros F1 F2 Hlen Heq. apply flat_map_byte_bits_inj; [assumption .. |].
  apply (base32_chars_inj_upto (length (flat_map byte_bits bs1)));
    [lia | rewrite !byte_bits_length; lia | exact Heq].
Qed.

Lemma next_bytes_are_bytes w : Forall is_byte (next_bytes w).
Proof.
  unfold next_bytes. apply Forall_forall. intros b Hb.
  apply list_elem_of_In, in_map_iff in Hb as (i & <- & _).
  apply Z.mod_pos_bound. lia.
Qed.

End TokenFacts.

Lemma generateSessionToken_fst w :
  fst (generateSessionToken w)
  = Ok (Codec.encodeBase32LowerCaseNoPadding (next_bytes w)).
Proof. reflexivity. Qed.

Lemma Ok_inj {T E} (a b : T) : Ok (E := E) a = Ok b -> a = b.
Proof. intros H. now inversion H. Qed.

(** X13.  [generateSessionToken] cannot fail and touches neither table nor
    clock: it takes the next 32 bytes of the random source, and its token
    is made of 52 characters, each one of a..z or 2..7 (so it needs no
    escaping in a cookie or a URL). *)
Theorem generated_token_format w :
  exists token,
    generateSessionToken w = (Ok token, take_entropy 32 w) /\
    token = Codec.encodeBase32LowerCaseNoPadding (next_bytes w) /\
    String.length token = 52%nat /\
    string_forall base32_char token = true /\
    next_bytes (take_entropy 32 w)
    = map (fun i => entropy w i mod 256) (seq (drawn w + 32) 32).
Proof.
  exists (next_token w). split; [reflexivity |]. split; [reflexivity |].
  split; [apply next_token_length |]. split; [| reflexivity].
  apply (base32_chars_safe_upto _ _ (le_n _)).
Qed.

(** X14.  The token keeps all 256 random bits: two calls return the same
    token only if they drew the same 32 bytes. *)
Theorem generated_tokens_equal_only_for_equal_bytes w1 w2 :
  fst (generateSessionToken w1) = fst (generateSessionToken w2) ->
  next_bytes w1 = next_bytes w2.
Proof.
  intros Heq. rewrite !generateSessionToken_fst in Heq. apply Ok_inj in Heq.
  apply encodeBase32_inj; [apply next_bytes_are_bytes .. | | exact Heq].
  unfold next_bytes. now rewrite !length_map, !length_seq.
Qed.

Lemma generated_tokens_equal_only_for_equal_bytes_witness :
  next_bytes (Sample.empty_world Sample.t0 [])
  = next_bytes (Sample.empty_world (Sample.t0 + 1) [true]).
Proof.
  apply generated_tokens_equal_only_for_equal_bytes. reflexivity.
Defined.

(** * Properties of the client *)

Section LoadFacts.

Context {Model : Type}.
Variable model_id : Model -> string.
Variable chatModels : list Model.
Variable DEFAULT_CHAT_MODEL : string.

Lemma fetch_user_truthy fetch :
  Client.truthy (fst (Client.fetch_user fetch)) = true ->
  exists status,
    fetch "/api/user" = Client.Responded status (Some (fst (Client.fetch_user fetch))) /\
    Client.ok status = true.
Proof.
  unfold Client.fetch_user.
  destruct (fetch "/api/user") as [m|status [j|]]; simpl; try discriminate.
  - destruct (Client.ok status) eqn:Hok; simpl; [eauto | discriminate].
  - destruct (Client.ok status); discriminate.
Qed.

(** X15.  The layout's [load] ends in one of three ways.  On the server it
    fetches nothing, and the user is null and the chats are the empty
    list.  In the browser without a truthy user it fetched /api/user only,
    and the chats are the empty list: a failed, rejected or unparsable
    answer is no error of the load.  With a truthy user, which is the body
    of an ok answer of /api/user, it fetched /api/user and then
    /api/history, whose parsed body, whatever its status, is the chats. *)
Theorem layout_load_outcomes browser localStorage fetch :
  let r := Client.layout_load model_id chatModels DEFAULT_CHAT_MODEL browser localStorage fetch in
  let d := Client.data r in
  (browser = false /\ Client.fetched r = [] /\ Client.logged r = 0%nat /\
   Client.user d = Client.JNull /\ Client.chats d = Client.Fulfilled (Client.JArr []))
  \/
  (browser = true /\ Client.fetched r = ["/api/user"] /\
   Client.truthy (Client.user d) = false /\
   Client.chats d = Client.Fulfilled (Client.JArr []))
  \/
  (browser = true /\ Client.fetched r = ["/api/user"; "/api/history"] /\
   Client.truthy (Client.user d) = true /\
   (exists status,
      fetch "/api/user" = Client.Responded status (Some (Client.user d)) /\
      Client.ok status = true) /\
   Client.chats d = Client.history_json fetch).
Proof.
  intros r d. subst d r. unfold Client.layout_load.
  destruct browser.
  - pose proof (fetch_user_truthy fetch) as Hu.
    destruct (Client.fetch_user fetch) as [u n]. cbn [fst] in Hu. cbv iota beta.
    cbn [Client.data Client.fetched Client.user Client.chats].
    destruct (Client.truthy u) eqn:Ht.
    + right. right. repeat split. exact (Hu eq_refl).
    + right. left. now repeat split.
  - left. now repeat split.
Qed.

(** X16.  What the layout's [load] takes from the local storage.  The
    sidebar is expanded only in the browser with 'sidebar:state' stored as
    'true'.  The selected model is, in the browser, the stored
    'selected-model' entry whenever there is a non-empty one, and the
    default model otherwise: the check of the stored id against the list of
    models has no effect on what is returned, so a stored id of no model
    is the selected model, and any two lists of models give the same
    result. *)
Theorem layout_load_reads_local_storage browser localStorage fetch
    (otherModels : list Model) :
  let r := Client.layout_load model_id chatModels DEFAULT_CHAT_MODEL browser localStorage fetch in
  Client.sidebarCollapsed (Client.data r)
  = negb (browser && bool_decide (localStorage !! "sidebar:state" = Some "true")) /\
  Client.selectedChatModel (Client.data r)
  = Client.mkSynchronizedCookie "selected-model"
      (if browser
       then Client.stored_or (localStorage !! "selected-model") DEFAULT_CHAT_MODEL
       else DEFAULT_CHAT_MODEL) /\
  r = Client.layout_load model_id otherModels DEFAULT_CHAT_MODEL browser localStorage fetch.
Proof.
  intros r. subst r.
  assert (forall models,
            Client.SelectedModel_new browser localStorage
              (if browser
               then Client.checked_model_id model_id models DEFAULT_CHAT_MODEL localStorage
               else DEFAULT_CHAT_MODEL)
            = Client.mkSynchronizedCookie "selected-model"
                (if browser
                 then Client.stored_or (localStorage !! "selected-model") DEFAULT_CHAT_MODEL
                 else DEFAULT_CHAT_MODEL)) as Hmodel.
  { intros models.
    unfold Client.SelectedModel_new, Client.SynchronizedCookie_new, Client.checked_model_id.
    destruct browser; [| reflexivity]. f_equal.
    destruct (localStorage !! "selected-model") as [stored|]; [| reflexivity].
    simpl. now destruct (String.eqb stored ""). }
  unfold Client.layout_load.
  destruct (if browser then Client.fetch_user fetch else (Client.JNull, 0%nat)) as [u n].
  cbn [Client.data Client.sidebarCollapsed Client.selectedChatModel].
  rewrite !Hmodel. split; [| split; reflexivity].
  destruct browser; [| reflexivity]. unfold Client.sidebar_collapsed. simpl.
  destruct (localStorage !! "sidebar:state") as [s|] eqn:Hs.
  - destruct (String.eqb s "true") eqn:He.
    + apply String.eqb_eq in He. subst s. now rewrite bool_decide_eq_true_2.
    + apply String.eqb_neq in He. rewrite bool_decide_eq_false_2; [reflexivity |].
      intros [= ->]. now apply He.
  - now rewrite bool_decide_eq_false_2.
Qed.

(** X17.  The two [load]s among the sources return the same user, sidebar
    state and selected model, fetch the same URLs and log as often; their
    chats differ in one case only: /api/history answered with a status
    that is not ok, where the version that returns early on the server
    gives the empty list and the other one gives whatever the answer's
    body parses to. *)
Theorem loads_agree_but_for_failed_history browser localStorage fetch :
  let a := Client.layout_load model_id chatModels DEFAULT_CHAT_MODEL browser localStorage fetch in
  let b := Client.layout_load_early_return model_id chatModels DEFAULT_CHAT_MODEL
             browser localStorage fetch in
  Client.fetched a = Client.fetched b /\
  Client.logged a = Client.logged b /\
  Client.user (Client.data a) = Client.user (Client.data b) /\
  Client.sidebarCollapsed (Client.data a) = Client.sidebarCollapsed (Client.data b) /\
  Client.selectedChatModel (Client.data a) = Client.selectedChatModel (Client.data b) /\
  (a = b \/
   exists status body,
     fetch "/api/history" = Client.Responded status body /\
     Client.ok status = false /\
     Client.chats (Client.data b) = Client.Fulfilled (Client.JArr []) /\
     Client.chats (Client.data a)
     = match body with Some j => Client.Fulfilled j | None => Client.Rejected end).
Proof.
  intros a b. subst a b. unfold Client.layout_load, Client.layout_load_early_return.
  destruct browser; [| repeat split; now left].
  cbn [negb]. destruct (Client.fetch_user fetch) as [u n]. cbv iota beta.
  cbn [Client.data Client.fetched Client.logged Client.user Client.sidebarCollapsed
       Client.selectedChatModel Client.chats].
  repeat split.
  destruct (Client.truthy u); [| now left].
  unfold Client.history_json, Client.history_json_if_ok.
  destruct (fetch "/api/history") as [m|status body] eqn:Hh; [now left |].
  destruct (Client.ok status) eqn:Hok.
  - left. now destruct body.
  - right. exists status, body. repeat split. now destruct body.
Qed.

End LoadFacts.

Section LocalStorageFacts.

Context {T : Type}.
Variable stringify : T -> string.
Variable parse : string -> option T.

(** X18.  [LocalStorage<T>], for a value that [JSON.parse] reads back from
    its [JSON.stringify].  In the browser the getter returns what the
    setter stored, under the object's key only; after [delete] it returns
    the default again; and a stored string that does not parse makes the
    getter throw, not fall back to the default.  On the server the setter
    and [delete] leave the storage alone and the getter returns the
    default whatever is stored. *)
Theorem LocalStorage_round_trip localStorage (o : Client.LocalStorage) v :
  parse (stringify v) = Some v ->
  let stored := Client.LocalStorage_set stringify true localStorage o v in
  Client.LocalStorage_get parse true stored o = Client.Returns v /\
  (forall k, k <> Client.ls_key o -> stored !! k = localStorage !! k) /\
  Client.LocalStorage_get parse true (Client.LocalStorage_delete true stored o) o
  = Client.Returns (Client.ls_defaultValue o) /\
  (forall garbage, parse garbage = None ->
     Client.LocalStorage_get parse true (<[Client.ls_key o := garbage]> localStorage) o
     = Client.Throws) /\
  Client.LocalStorage_set stringify false localStorage o v = localStorage /\
  Client.LocalStorage_delete false localStorage o = localStorage /\
  Client.LocalStorage_get parse false stored o = Client.Returns (Client.ls_defaultValue o).
Proof.
  intros Hrt stored. subst stored.
  unfold Client.LocalStorage_get, Client.LocalStorage_set, Client.LocalStorage_delete.
  cbn [negb]. repeat split.
  - now rewrite lookup_insert_eq, Hrt.
  - intros k Hk. now rewrite lookup_insert_ne.
  - now rewrite lookup_delete_eq.
  - intros garbage Hg. now rewrite lookup_insert_eq, Hg.
Qed.

End LocalStorageFacts.

Lemma LocalStorage_round_trip_witness :
  let stringify := fun b : bool => if b then "true" else "false" in
  let parse := fun s => if String.eqb s "true" then Some true
                        else if String.eqb s "false" then Some false else None in
  let o := Client.mkLocalStorage "sidebar:state" false in
  Client.LocalStorage_get parse true (Client.LocalStorage_set stringify true ∅ o true) o
  = Client.Returns true.
Proof.
  intros stringify parse o.
  destruct (LocalStorage_round_trip stringify parse ∅ o true) as (H & _).
  - reflexivity.
  - exact H.
Defined.

(** X19.  The setter of a [SynchronizedCookie].  In the browser both
    versions of it do the same: the object reads back the value set; a new
    object for the same key starts with that value, unless it is the empty
    string, in which case it starts with the value given to its
    constructor; other keys of the local storage are untouched; and one
    request was sent, to the key's URL, with the value.  On the server the
    local storage is untouched by both, and they differ: the version that
    tests [browser] around everything sends nothing, the other one still
    sends its request. *)
Theorem SynchronizedCookie_set c v p d :
  let '(c', p') := Client.set_value_guarded true c v p in
  Client.value c' = v /\ Client.key c' = Client.key c /\
  Client.SynchronizedCookie_new true (Client.storage p') (Client.key c) d
  = Client.mkSynchronizedCookie (Client.key c) (if String.eqb v "" then d else v) /\
  (forall k, k <> Client.key c -> Client.storage p' !! k = Client.storage p !! k) /\
  Client.requests p' = Client.requests p ++ [(Client.sync_url (Client.key c), v)] /\
  Client.set_value_unguarded true c v p = (c', p') /\
  Client.set_value_guarded false c v p = (c', p) /\
  Client.set_value_unguarded false c v p
  = (c', Client.mkPage (Client.storage p) (Client.requests p')).
Proof.
  unfold Client.set_value_guarded, Client.set_value_unguarded,
    Client.SynchronizedCookie_new, Client.stored_or.
  cbn [Client.value Client.key Client.storage Client.requests].
  rewrite lookup_insert_eq. repeat split.
  intros k Hk. now rewrite lookup_insert_ne.
Qed.

Lemma SynchronizedCookie_set_witness :
  let c := Client.mkSynchronizedCookie "selected-model" "chat-model" in
  let p := Client.mkPage {[ "sidebar:state" := "true" ]} [] in
  Client.storage (snd (Client.set_value_guarded true c "" p)) !! "sidebar:state"
  = Some "true" /\
  Client.SynchronizedCookie_new true
    (Client.storage (snd (Client.set_value_guarded true c "" p))) "selected-model" "chat-model"
  = Client.mkSynchronizedCookie "selected-model" "chat-model".
Proof.
  intros c p.
  pose proof (SynchronizedCookie_set c "" p "chat-model") as H.
  destruct (Client.set_value_guarded true c "" p) as [c' p'].
  destruct H as (_ & _ & Hnew & Hother & _).
  split; [| exact Hnew].
  cbn [snd]. rewrite Hother; [reflexivity | discriminate].
Defined.

(** ** The form against the routes *)

(** X20.  Whatever the fetch gives, [handleSubmit] ends with [loading]
    false and with exactly one of two things shown: the success toast
    followed by the navigation to '/', which takes an ok status and a body
    that parses; or one error toast and no navigation. *)
Theorem handleSubmit_outcomes authType post email password :
  let '(effects, loading) := Client.handleSubmit authType post email password in
  loading = false /\
  ((exists status result,
      post ("/api/auth/" ++ authType)%string email password
      = Client.Responded status (Some result) /\
      Client.ok status = true /\
      effects = [Client.ToastSuccess
                   (if String.eqb authType "signup"
                    then "Successfully signed up!" else "Successfully signed in!");
                 Client.Goto "/"])
   \/
   (exists m, effects = [Client.ToastError m] /\ Client.truthy m = true)).
Proof.
  unfold Client.handleSubmit. split; [reflexivity |].
  destruct (post _ email password) as [m|status [result|]].
  - right. eexists. split; reflexivity.
  - destruct (Client.ok status) eqn:Hok.
    + left. exists status, result. split; [reflexivity |]. split; [exact Hok |].
      now destruct (String.eqb authType "signup").
    + right. destruct (Client.message_of result) as [m|].
      * destruct (Client.truthy m) eqn:Hm; eexists; split; try reflexivity. exact Hm.
      * eexists. split; reflexivity.
  - right. eexists. split; reflexivity.
Qed.

Section FormAgainstSignin.

Variable is_email : string -> bool.
Variable compare : string -> string -> bool.

(** X21.  The form submitted to the sign-in route.  It shows 'Successfully
    signed in!' and navigates to '/' exactly when the route answered 200,
    that is when it stored the session and set the cookie; otherwise it
    shows as its one error toast the route's own message, which is one of
    'Invalid input', 'Invalid credentials' and 'Failed to create session',
    and the cookies are as they were. *)
Theorem form_follows_signin cks w email password :
  let '(response, cks', w') :=
    signin_POST is_email compare (Json (Some email) (Some password)) cks w in
  let '(effects, loading) :=
    Client.handleSubmit "signin" (post_signin is_email compare cks w) email password in
  (response = mkResponse 200 Success /\
   effects = [Client.ToastSuccess "Successfully signed in!"; Client.Goto "/"] /\
   cks' = setSessionTokenCookie cks (next_token w) (now w + SESSION_LIFETIME))
  \/
  (exists m,
     response = mkResponse (status response) (Message m) /\
     status response <> 200 /\
     (m = "Invalid input" \/ m = "Invalid credentials" \/ m = "Failed to create session") /\
     effects = [Client.ToastError (Client.JStr m)] /\
     cks' = cks).
Proof.
  unfold Client.handleSubmit, post_signin.
  destruct (schema_parse is_email (Json (Some email) (Some password))) as [[e p]|] eqn:Hparse.
  - apply schema_parse_Some in Hparse as [[= <- <-] Hwf].
    rewrite (signin_POST_eq _ _ _ _ _ _ Hwf), getAuthUser_eq.
    destruct (down_at 0 w);
      [right; exists "Invalid credentials"; repeat split; auto; discriminate |].
    destruct (Db.find_user_by_email email (users w)) as [a|];
      [| right; exists "Invalid credentials"; repeat split; auto; discriminate].
    destruct (compare password (auth_password a));
      [| right; exists "Invalid credentials"; repeat split; auto; discriminate].
    rewrite createSession_eq. cbv zeta.
    change (down_at 0 (take_entropy 32 (dispatch (OpGetUser email) w)))
      with (down_at 0 (dispatch (OpGetUser email) w)).
    destruct (down_at 0 (dispatch (OpGetUser email) w));
      [right; exists "Failed to create session"; repeat split; auto; discriminate |].
    left. repeat split.
  - unfold signin_POST. rewrite Hparse.
    right. exists "Invalid input". repeat split; auto; discriminate.
Qed.

End FormAgainstSignin.

(** ** The chat page *)


(** * Requests served end to end *)

Section ServedFacts.

Variable is_email : string -> bool.
Variable compare : string -> string -> bool.

(** X23.  A sign-in request that still carries a stale session cookie (a
    token without record), with credentials that are right and the store
    answering: [handle] clears the cookie, then the route sets the new one
    over it, so the response answers success and its session cookie is the
    new token with the new expiry and no Max-Age; the Session table holds
    the new session. *)
Theorem signin_replaces_stale_cookie event w stale e p a :
  getSessionCookie event = Some stale ->
  stale <> "" ->
  sessions w !! Codec.sessionIdOf stale = None ->
  well_formed is_email e p ->
  Db.find_user_by_email e (users w) = Some a ->
  compare p (auth_password a) = true ->
  down_at 1 w = false ->
  down_at 2 w = false ->
  let '(response, cks', w') :=
    serve_signin_POST is_email compare (Json (Some e) (Some p)) event w in
  let token := next_token w in
  response = mkResponse 200 Success /\
  outgoing cks' !! "session"
  = Some (mkSetCookie token true (negb (localhost_http (cookies event))) Lax
                      (Some (now w + SESSION_LIFETIME)) None "/") /\
  sessions w' !! Codec.sessionIdOf token
  = Some (mkSession (Codec.sessionIdOf token) (auth_id a) (now w + SESSION_LIFETIME)).
Proof.
  intros Hc Hne Hnone Hwf Hfind Hcmp Hup1 Hup2. unfold serve_signin_POST.
  rewrite (handle_token _ _ _ _ Hc Hne).
  destruct (validate_unknown _ _ Hnone) as [err ->].
  cbn [cookies].
  rewrite (signin_POST_eq _ _ _ _ _ _ Hwf), getAuthUser_eq, down_at_dispatch, Hup1.
  change (users (dispatch _ w)) with (users w). rewrite Hfind, Hcmp.
  rewrite createSession_eq. cbv zeta.
  change (down_at 0 (take_entropy 32 ?x)) with (down_at 0 x).
  rewrite !down_at_dispatch, Hup2.
  split; [reflexivity |]. split.
  - unfold setSessionTokenCookie, deleteSessionTokenCookie, cookies_set. simpl.
    now rewrite lookup_insert_eq.
  - simpl. apply lookup_insert_eq.
Qed.

End ServedFacts.

Lemma signin_replaces_stale_cookie_witness :
  let event := request_with Sample.no_cookies "stale-token" in
  let w := Sample.empty_world Sample.t0 [] in
  fst (fst (serve_signin_POST (fun _ => true) String.eqb
              (Json (Some "alice@example.com") (Some "$2a$10$hash-of-alice")) event w))
  = mkResponse 200 Success.
Proof.
  intros event w.
  pose proof (signin_replaces_stale_cookie (fun _ => true) String.eqb event w "stale-token"
                "alice@example.com" "$2a$10$hash-of-alice" Sample.alice) as H.
  destruct (serve_signin_POST _ _ _ event w) as [[response c'] w'].
  apply H.
  - reflexivity.
  - discriminate.
  - reflexivity.
  - split; [reflexivity | vm_compute; lia].
  - reflexivity.
  - reflexivity.
  - reflexivity.
  - reflexivity.
Defined.

(** X25.  A sign-out request that presents the token of a live session,
    the table being keyed and the store answering: the response answers
    success with the session cookie cleared, the session's record is gone
    from the table and no other record is. *)
Theorem signout_request_removes_session event w token u s :
  getSessionCookie event = Some token ->
  token <> "" ->
  keyed w ->
  record_found w token u s ->
  now w < expiresAt s ->
  down_at 1 w = false ->
  down_at 2 w = false ->
  let '(response, cks', w') := serve_signout_POST event w in
  response = mkResponse 200 Success /\
  cks' = deleteSessionTokenCookie (cookies event) /\
  sessions w' = delete (Codec.sessionIdOf token) (sessions w).
Proof.
  intros Hc Hne Hk Hf Hlive Hup1 Hup2. unfold serve_signout_POST.
  rewrite (handle_token _ _ _ _ Hc Hne).
  pose proof Hf as Hf'. apply record_found_iff in Hf' as (_ & Hs & _).
  pose proof (Hk _ _ Hs) as Hid.
  rewrite (validate_found _ _ _ _ Hf). cbv zeta. rewrite (geb_false _ _ Hlive).
  destruct (now w >=? expiresAt s - ms_15d).
  - rewrite extendSession_eq, down_at_dispatch, Hup1. cbv zeta.
    unfold signout_POST, invalidateSession. cbn [locals locals_session cookies session_id].
    rewrite Hid, deleteSession_eq.
    change (down_at 0 (with_sessions ?f ?x)) with (down_at 0 x).
    rewrite !down_at_dispatch, Hup2. repeat split.
    cbn [snd]. rewrite !sessions_with_sessions, !sessions_dispatch.
    apply map_eq. intros k. destruct (decide (Codec.sessionIdOf token = k)) as [<-|Hk'].
    + now rewrite !lookup_delete_eq.
    + rewrite !lookup_delete_ne by exact Hk'.
      now rewrite sessions_with_sessions, !sessions_dispatch, lookup_alter_ne.
  - unfold signout_POST, invalidateSession. cbn [locals locals_session cookies session_id].
    rewrite Hid, deleteSession_eq, down_at_dispatch, Hup1. now repeat split.
Qed.

Lemma signout_request_removes_session_witness :
  let event := request_with Sample.no_cookies Sample.token in
  let w := Sample.world (Sample.t0 + 10 * Sample.day) Sample.t0 [] in
  sessions (snd (serve_signout_POST event w)) !! Codec.sessionIdOf Sample.token = None.
Proof.
  intros event w.
  pose proof (signout_request_removes_session event w Sample.token (public Sample.alice)
                (mkSession (Codec.sessionIdOf Sample.token) (auth_id Sample.alice)
                           (Sample.t0 + 10 * Sample.day))) as H.
  destruct (serve_signout_POST event w) as [[response c'] w'].
  destruct H as (_ & _ & Hs).
  - reflexivity.
  - discriminate.
  - intros k s Hs. unfold w, Sample.world in Hs. cbn [sessions] in Hs.
    apply lookup_singleton_Some in Hs as [<- <-]. reflexivity.
  - vm_compute. reflexivity.
  - vm_compute. reflexivity.
  - reflexivity.
  - reflexivity.
  - cbn [snd]. rewrite Hs. apply lookup_delete_eq.
Defined.

(** X26.  The layout behind [handle], anonymous chats not being allowed:
    the load either redirects to '/auth/login' with status 303, or returns
    the identity joined to the unexpired session that is stored for the
    token the request presents.  Whether allowed or not, a user it returns
    is always such an identity. *)
Theorem layout_is_protected allowAnonymousChats event w :
  let result := fst (serve_layout allowAnonymousChats event w) in
  (result = Redirect 303 "/auth/login" /\ allowAnonymousChats = false)
  \/
  (result = LayoutServerData None /\ allowAnonymousChats = true)
  \/
  (exists token u s,
     result = LayoutServerData (Some u) /\
     getSessionCookie event = Some token /\
     record_found w token u s /\
     now w < expiresAt s).
Proof.
  intros result. subst result. unfold serve_layout, handle.
  assert (forall w' : World,
            let r := layout_server_load allowAnonymousChats (mkLocals None None) in
            (fst (r, w') = Redirect 303 "/auth/login" /\ allowAnonymousChats = false) \/
            (fst (r, w') = LayoutServerData None /\ allowAnonymousChats = true) \/
            (exists token u s,
               fst (r, w') = LayoutServerData (Some u) /\
               getSessionCookie event = Some token /\
               record_found w token u s /\ now w < expiresAt s)) as Hanon.
  { intros w'. unfold layout_server_load. cbn [fst locals_user].
    destruct allowAnonymousChats; [right; left | left]; now split. }
  destruct (getSessionCookie event) as [token|] eqn:Hc; [| apply Hanon].
  destruct (falsy (Some token)); [apply Hanon |].
  destruct (validateSessionToken token w) as [[[[s|] ou]|e] w1] eqn:Hv;
    cbn [locals]; try apply Hanon.
  apply validate_ok_session in Hv as (u & -> & Hf & Hlive).
  right. right. exists token, u, s. now repeat split.
Qed.

(** ** Registration by form action *)

Section RegisterFacts.

Variable getUserByEmail : string -> ResultAsync AuthUser.
Variable createUser : string -> string -> ResultAsync AuthUser.
Variable hash : string -> string.


End RegisterFacts.
